(** * Curator's Odysseia: hand tracking session and host/guest bridge

  A shallow embedding of [HandController.tsx] (the capability loader, the
  camera lifecycle and the per-frame callback) and of the host shell
  ([App]: pause synchronisation, report generation, input forwarding).

  JavaScript numbers are IEEE 754 binary64 values, modelled by Rocq's
  primitive floats.  Values that cross the host/guest boundary are
  untyped in the source ([any]); they are modelled by [Js.val].

  Each component is a state machine over the events of the single-threaded
  event loop: renders (a commit followed by the effects whose dependencies
  changed), timers, script load events, callbacks of the vision engine,
  messages and settlements of promises. Refs follow React's contract: the
  ref of an element is the element while it is mounted and [null] once it
  is unmounted, and it is updated before the effects of the commit run. *)

From Stdlib Require Import PrimFloat.
From stdpp Require Import base option list strings pretty gmap.

(** * JavaScript values *)

Module Js.

#[local] Set Warnings "-register-all".

(** The values a structured clone (a [postMessage] payload) or
    [JSON.parse] can yield. Objects are property lists; the first binding
    of a key is the one that is read. *)
Inductive val :=
| Undefined
| Null
| Bool (b : bool)
| Num (n : float)
| Str (s : string)
| Arr (elems : list val)
| Obj (props : list (string * val)).

Inductive exn :=
| TypeError
| SyntaxError
| ServiceError (message : string).

(** Completion of an expression or block: a value, or a thrown exception. *)
Inductive completion (A : Type) :=
| Normal (a : A)
| Throw (e : exn).
Arguments Normal {A} a.
Arguments Throw {A} e.

#[global] Instance completion_ret : MRet completion := fun A a => Normal a.
#[global] Instance completion_bind : MBind completion := fun A B k c =>
  match c with
  | Normal a => k a
  | Throw e => Throw e
  end.

Fixpoint assoc (k : string) (props : list (string * val)) : val :=
  match props with
  | [] => Undefined
  | (k', v) :: rest => if String.eqb k k' then v else assoc k rest
  end.

Definition nullish (v : val) : bool :=
  match v with
  | Undefined | Null => true
  | _ => false
  end.

(** [v.k] for the property names this program reads ([type], [payload],
    [metrics], [inst], ..., [event], [t1], ...): none of them is a
    property of a primitive wrapper or of [Array.prototype], so on
    anything but a plain object the read gives [undefined]; on
    [undefined] and [null] it throws. *)
Definition get (v : val) (k : string) : completion val :=
  match v with
  | Undefined | Null => Throw TypeError
  | Obj props => Normal (assoc k props)
  | _ => Normal Undefined
  end.

(** [v[i]] for an index [i]. *)
Definition index (v : val) (i : nat) : completion val :=
  match v with
  | Undefined | Null => Throw TypeError
  | Arr elems => Normal (default Undefined (elems !! i))
  | Str s =>
      Normal (match String.get i s with
              | Some c => Str (String c EmptyString)
              | None => Undefined
              end)
  | Obj props => Normal (assoc (pretty i) props)
  | _ => Normal Undefined
  end.

(** [v?.k] *)
Definition get_opt (v : val) (k : string) : completion val :=
  if nullish v then Normal Undefined else get v k.

Definition is_nan (n : float) : bool := negb (PrimFloat.eqb n n).

(** ToBoolean *)
Definition truthy (v : val) : bool :=
  match v with
  | Undefined | Null => false
  | Bool b => b
  | Num n => negb (PrimFloat.eqb n 0%float || is_nan n)
  | Str s => negb (String.eqb s EmptyString)
  | Arr _ | Obj _ => true
  end.

(** [a || b] *)
Definition or (a b : val) : val := if truthy a then a else b.

(** [v === s] for a string literal [s]. *)
Definition is_string (v : val) (s : string) : bool :=
  match v with
  | Str s' => String.eqb s' s
  | _ => false
  end.

(** [k in props], as an own property. *)
Definition has_own (k : string) (props : list (string * val)) : bool :=
  existsb (fun p => String.eqb k p.1) props.

(** Whether ToString returns on [v]. Primitives always convert. A plain
    object is converted by its [toString], then its [valueOf]: the
    inherited [toString] gives a string; an own [toString] property is
    never callable in a cloned or parsed value, and then neither an own
    [valueOf] (not callable) nor the inherited one (it returns the
    object) gives a primitive, so the conversion throws a TypeError. An
    array is converted by [join], which converts each element that is
    not [null] or [undefined]. *)
Fixpoint convertible (v : val) : bool :=
  match v with
  | Obj props => negb (has_own "toString" props)
  | Arr elems => forallb convertible elems
  | _ => true
  end.

(** [`${v}`] in a template literal: the conversion of [v] to a string,
    whose text is left out. *)
Definition interpolate (v : val) : completion val :=
  if convertible v then Normal v else Throw TypeError.

End Js.

(** * HandController.tsx *)

Module HandController.

Module Landmark.
(** One point of MediaPipe's [NormalizedLandmarkList]. *)
Record t := mk { x : float; y : float; z : float }.
End Landmark.

(** [results.multiHandLandmarks]: absent, or one entry per detected
    hand. The parameter is typed [any]: an entry is a landmark array, or
    [null]/[undefined] ([None]); an entry of a landmark array may be a
    hole. *)
Record Results := {
  multiHandLandmarks : option (list (option (list (option Landmark.t))))
}.

(** The overlay canvas (320 x 240 in the JSX); [getContext('2d')] may
    return [null]. *)
Record Canvas := {
  width : float;
  height : float;
  context2d : bool
}.

(** The globals the MediaPipe scripts install on [window]. *)
Inductive CameraBehaviour :=
| ConstructorThrows
| StartThrows
| Starts (hasStop : bool).

Record Window := {
  Hands : option bool;  (* the constructor, and whether it succeeds *)
  Camera : option CameraBehaviour;
  drawConnectors : bool;
  drawLandmarks : bool;
  HAND_CONNECTIONS : bool
}.

(** What the component does to the outside, in order: canvas drawing and
    the [onInput] prop called by [onResults], device and engine calls made
    by the effects. *)
Inductive Effect :=
| Save
| ClearRect
| StrokeGrid
| OnInput (x : float) (isActive : bool)
| DrawConnectors
| DrawLandmarks
| FillCursor (cx cy : float)
| FillSearching
| Restore
| NewHands
| NewCamera
| CameraStart
| CameraStop
| SendImage
| ConsoleError
| ThrowTypeError.  (* the callback ends here with an uncaught TypeError *)

Definition when (b : bool) (e : Effect) : list Effect := if b then [e] else [].

(** Lines 150-179: the [if (results.multiHandLandmarks && ... length > 0)]
    statement of [onResults]. [isActive] is the prop captured by the
    closure. Reading [landmarks[9]] of a first hand that is [null] or
    [undefined] throws. *)
Definition onResults_landmarks (isActive : bool) (canvas : Canvas) (window : Window)
    (results : Results) : list Effect :=
  match multiHandLandmarks results with
  | Some (None :: _) => [ThrowTypeError]
  | Some (Some landmarks :: _) =>
      match landmarks !! 9 with
      | Some (Some lm9) =>
          let rawX := (1 - Landmark.x lm9)%float in
          let normalizedInput := ((rawX - 0.5) * 2)%float in
          [OnInput normalizedInput true]
          ++ when (drawConnectors window && HAND_CONNECTIONS window) DrawConnectors
          ++ when (drawLandmarks window) DrawLandmarks
          ++ [FillCursor (rawX * width canvas)%float
                         (Landmark.y lm9 * height canvas)%float]
      | _ => []
      end
  | _ =>
      [OnInput 0%float false] ++ when isActive FillSearching
  end.

(** Whether a block ended by throwing. *)
Definition thrown (es : list Effect) : bool :=
  match last es with
  | Some ThrowTypeError => true
  | _ => false
  end.

(** Lines 132-181. [canvasRef] is [canvasRef.current]. There is no
    [try]: when the landmark block throws, [ctx.restore()] (line 180) is
    not reached. *)
Definition onResults (isActive : bool) (canvasRef : option Canvas) (window : Window)
    (results : Results) : list Effect :=
  match canvasRef with
  | None => []
  | Some canvas =>
      if negb (context2d canvas) then []
      else
        let block := onResults_landmarks isActive canvas window results in
        [Save; ClearRect]
        ++ when isActive StrokeGrid
        ++ block
        ++ (if thrown block then [] else [Restore])
  end.

(** The [onInput(x, isActive)] calls among the effects. *)
Fixpoint inputs (es : list Effect) : list (float * bool) :=
  match es with
  | [] => []
  | OnInput x a :: rest => (x, a) :: inputs rest
  | _ :: rest => inputs rest
  end.

(** ** Component state and effects *)

(** The [Hands] instance. [hands.onResults(onResults)] registers the
    closure of the render whose effect created the instance; it captured
    that render's [isActive] prop. *)
Record HandsInstance := { closure_isActive : bool }.

(** The [Camera] instance; [hasStop] is [typeof camera.stop === 'function']. *)
Record CameraInstance := { hasStop : bool }.

Record State := {
  isActive : bool;        (* the prop of the last committed render *)
  scriptsLoaded : bool;
  handsRef : option HandsInstance;
  cameraRef : option CameraInstance;
  videoRef : bool;        (* [videoRef.current] is an element *)
  canvasRef : option Canvas
}.

Definition set_handsRef (h : option HandsInstance) (st : State) : State :=
  {| isActive := isActive st; scriptsLoaded := scriptsLoaded st; handsRef := h;
     cameraRef := cameraRef st; videoRef := videoRef st; canvasRef := canvasRef st |}.

Definition set_cameraRef (c : option CameraInstance) (st : State) : State :=
  {| isActive := isActive st; scriptsLoaded := scriptsLoaded st; handsRef := handsRef st;
     cameraRef := c; videoRef := videoRef st; canvasRef := canvasRef st |}.

Definition set_scriptsLoaded (b : bool) (st : State) : State :=
  {| isActive := isActive st; scriptsLoaded := b; handsRef := handsRef st;
     cameraRef := cameraRef st; videoRef := videoRef st; canvasRef := canvasRef st |}.

(** Lines 183-200: the component renders nothing when [isActive] is false,
    and the video and canvas elements otherwise. Committing the render
    attaches the refs of mounted elements and sets the refs of unmounted
    ones to [null]; an element that stays mounted is kept. [fresh] is the
    canvas element React creates when it has to mount one. *)
Definition commit (active : bool) (fresh : Canvas) (st : State) : State :=
  {| isActive := active;
     scriptsLoaded := scriptsLoaded st;
     handsRef := handsRef st;
     cameraRef := cameraRef st;
     videoRef := active;
     canvasRef := if active
                  then match canvasRef st with Some c => Some c | None => Some fresh end
                  else None |}.

(** Lines 74-96: the effect that creates the [Hands] instance. *)
Definition initHands (window : Window) (st : State) : State * list Effect :=
  if negb (scriptsLoaded st) || bool_decide (is_Some (handsRef st)) then (st, [])
  else
    match Hands window with
    | Some true =>
        (set_handsRef (Some {| closure_isActive := isActive st |}) st, [NewHands])
    | Some false => (st, [ConsoleError])
    | None => (st, [])
    end.

(** Lines 99-130: the effect that starts and stops the camera. *)
Definition cameraEffect (window : Window) (active : bool) (st : State)
    : State * list Effect :=
  if negb (scriptsLoaded st) || negb (bool_decide (is_Some (handsRef st)))
     || negb (videoRef st)
  then (st, [])
  else if active then
    match cameraRef st, Camera window with
    | None, Some ConstructorThrows => (st, [ConsoleError])
    | None, Some StartThrows => (st, [NewCamera; ConsoleError])
    | None, Some (Starts stop) =>
        (set_cameraRef (Some {| hasStop := stop |}) st, [NewCamera; CameraStart])
    | _, _ => (st, [])
    end
  else
    match cameraRef st with
    | Some camera =>
        (set_cameraRef None st, when (hasStop camera) CameraStop)
    | None => (st, [])
    end.

(** Lines 107-111: the camera's [onFrame] callback. *)
Definition onFrame (st : State) : list Effect :=
  when (videoRef st && bool_decide (is_Some (handsRef st))) SendImage.

(** What can happen to a mounted component. *)
Inductive Event :=
| Render (active : bool) (fresh : Canvas)  (* the parent renders it with this prop *)
| SetScriptsLoaded                          (* [initScripts] got through its awaits *)
| CameraFrame                               (* a running camera calls [onFrame] *)
| ResultsReady (results : Results).         (* the engine calls the registered callback *)

(** A render commits, then runs the effects whose dependencies changed:
    [[scriptsLoaded]] for [initHands], [[isActive, scriptsLoaded]] for
    [cameraEffect], in this order. *)
Definition step (window : Window) (st : State) (ev : Event) : State * list Effect :=
  match ev with
  | Render active fresh =>
      let st1 := commit active fresh st in
      if Bool.eqb active (isActive st) then (st1, [])
      else cameraEffect window active st1
  | SetScriptsLoaded =>
      if scriptsLoaded st then (st, [])
      else
        let '(st2, out2) := initHands window (set_scriptsLoaded true st) in
        let '(st3, out3) := cameraEffect window (isActive st2) st2 in
        (st3, out2 ++ out3)
  | CameraFrame =>
      (st, match cameraRef st with Some _ => onFrame st | None => [] end)
  | ResultsReady results =>
      (st, match handsRef st with
           | Some hands => onResults (closure_isActive hands) (canvasRef st) window results
           | None => []
           end)
  end.

Fixpoint run (window : Window) (evs : list Event) (st : State) : State * list Effect :=
  match evs with
  | [] => (st, [])
  | ev :: rest =>
      let '(st1, out1) := step window st ev in
      let '(st2, out2) := run window rest st1 in
      (st2, out1 ++ out2)
  end.

(** A render that turns tracking on. *)
Definition activation (ev : Event) : bool :=
  match ev with
  | Render true _ => true
  | _ => false
  end.

(** The state after the first render of the component. *)
Definition mount (active : bool) (fresh : Canvas) : State :=
  commit active fresh
    {| isActive := active; scriptsLoaded := false; handsRef := None;
       cameraRef := None; videoRef := false; canvasRef := None |}.

(** ** The capability loader (lines 29-61) *)

Inductive ScriptStatus := Loading | Loaded | Failed.

(** The [script] elements of [document.head], by their [src]. *)
Abbreviation Document := (gmap string ScriptStatus).

Definition urls : list string :=
  [ "https://cdn.jsdelivr.net/npm/@mediapipe/camera_utils/camera_utils.js";
    "https://cdn.jsdelivr.net/npm/@mediapipe/drawing_utils/drawing_utils.js";
    "https://cdn.jsdelivr.net/npm/@mediapipe/hands/hands.js" ].

(** Lines 32-45: [loadScript src] returns a promise that is already
    resolved when the document has a script with this [src] ([None]), and
    otherwise appends a script element and settles when it loads or fails
    ([Some] of the new document). *)
Definition loadScript (src : string) (doc : Document) : option Document :=
  match doc !! src with
  | Some _ => None
  | None => Some (<[src := Loading]> doc)
  end.

(** One run of [initScripts]: suspended at the [await] of a pending
    [loadScript], through all its awaits, or in the [catch] block. *)
Inductive Task :=
| Awaiting (src : string) (rest : list string)
| Resolved
| Caught (src : string).

(** Lines 47-59, from the [await] for the first of [srcs] up to the next
    suspension on an unsettled promise. Awaiting a resolved promise yields
    to other microtasks only, and a script's [load] event is a task of its
    own: a run reaches its next pending script before any load event is
    handled. [Resolved] is where [setScriptsLoaded(true)] is called if the
    component is still mounted. *)
Fixpoint initScripts_from (srcs : list string) (doc : Document) : Task * Document :=
  match srcs with
  | [] => (Resolved, doc)
  | src :: rest =>
      match loadScript src doc with
      | None => initScripts_from rest doc
      | Some doc' => (Awaiting src rest, doc')
      end
  end.

Record Loader := {
  document : Document;
  tasks : list Task     (* the runs of [initScripts], in invocation order *)
}.

Inductive LoaderEvent :=
| Invoke                 (* [initScripts()] is called *)
| Onload (src : string)  (* the script element fires [load] *)
| Onerror (src : string).

(** The script's [onload] resolves, and its [onerror] rejects, the promise
    of the run that created the element. *)
Definition settle (src : string) (ok : bool) (t : Task) (doc : Document)
    : Task * Document :=
  match t with
  | Awaiting s rest =>
      if String.eqb s src
      then if ok then initScripts_from rest doc else (Caught s, doc)
      else (t, doc)
  | _ => (t, doc)
  end.

Fixpoint settle_all (src : string) (ok : bool) (ts : list Task) (doc : Document)
    : list Task * Document :=
  match ts with
  | [] => ([], doc)
  | t :: rest =>
      let '(t', doc1) := settle src ok t doc in
      let '(rest', doc2) := settle_all src ok rest doc1 in
      (t' :: rest', doc2)
  end.

Definition loader_step (srcs : list string) (st : Loader) (ev : LoaderEvent) : Loader :=
  match ev with
  | Invoke =>
      let '(t, doc) := initScripts_from srcs (document st) in
      {| document := doc; tasks := tasks st ++ [t] |}
  | Onload src =>
      match document st !! src with
      | Some Loading =>
          let '(ts, doc) := settle_all src true (tasks st) (<[src := Loaded]> (document st)) in
          {| document := doc; tasks := ts |}
      | _ => st
      end
  | Onerror src =>
      match document st !! src with
      | Some Loading =>
          let '(ts, doc) := settle_all src false (tasks st) (<[src := Failed]> (document st)) in
          {| document := doc; tasks := ts |}
      | _ => st
      end
  end.

Definition is_invoke (ev : LoaderEvent) : bool :=
  match ev with
  | Invoke => true
  | _ => false
  end.

Definition loader_run (srcs : list string) (evs : list LoaderEvent) (st : Loader) : Loader :=
  foldl (loader_step srcs) st evs.

End HandController.

(** * The host shell ([App]) *)

Module App.

Record WindowProxy := { windowId : nat }.

Record HTMLIFrameElement := { contentWindow : option WindowProxy }.

(** [iframeRef.current?.contentWindow] *)
Definition guestWindow (iframeRef : option HTMLIFrameElement) : option WindowProxy :=
  iframeRef ≫= contentWindow.

(** The messages the host posts to the guest. *)
Inductive Message :=
| PAUSE_GAME (payload : bool)
| REPORT_GENERATED (payload : Js.val)
| INPUT_UPDATE (x : float) (isActive : bool).

(** A [postMessage] call: the receiving window and the message. *)
Definition Post : Type := WindowProxy * Message.

(** [if (iframeRef.current?.contentWindow) { ...postMessage(msg, '*') }] *)
Definition postIfPresent (iframeRef : option HTMLIFrameElement) (msg : Message) : list Post :=
  match guestWindow iframeRef with
  | Some w => [(w, msg)]
  | None => []
  end.

(** Lines 378-382. *)
Definition handleHandInput (iframeRef : option HTMLIFrameElement)
    (x : float) (isActive : bool) : list Post :=
  postIfPresent iframeRef (INPUT_UPDATE x isActive).

(** The posts made when [HandController] calls its [onInput] prop. *)
Definition forwardInputs (iframeRef : option HTMLIFrameElement)
    (calls : list (float * bool)) : list Post :=
  flat_map (fun c => handleHandInput iframeRef c.1 c.2) calls.

(** ** Pause synchronisation (lines 271-283 and the iframe's [onLoad]) *)

(** Lines 271-277; [showModal] and [showRemix] are the values captured by
    the [useCallback] closure. *)
Definition syncGameState (showModal showRemix : bool)
    (iframeRef : option HTMLIFrameElement) : list Post :=
  let isPaused := showModal || showRemix in
  postIfPresent iframeRef (PAUSE_GAME isPaused).

(** The [setTimeout] delay of line 281, in milliseconds. *)
Definition delay : nat := 100.

(** A pending [setTimeout(syncGameState, 100)]: the time since it was set
    and the state captured by the scheduled closure. *)
Record Timer := {
  elapsed : nat;
  timer_showModal : bool;
  timer_showRemix : bool
}.

Record PauseState := {
  showModal : bool;
  showRemix : bool;
  iframeRef : option HTMLIFrameElement;
  timer : option Timer
}.

Inductive PauseEvent :=
| SetUI (modal remix : bool)   (* a batch of [setShowModal] / [setShowRemix] calls *)
| Elapse (ms : nat)
| TimerFires                   (* the event loop runs a due timer *)
| IframeLoad                   (* the iframe's [onLoad] *)
| SetIframe (r : option HTMLIFrameElement).

(** A state update that changes [showModal] or [showRemix] gives a new
    [syncGameState]; the effect of lines 279-283 then runs its cleanup
    ([clearTimeout]) and sets a new timer. An update to equal values
    leaves the memoised callback, and the timer, as they are. *)
Definition pause_step (st : PauseState) (ev : PauseEvent) : PauseState * list Post :=
  match ev with
  | SetUI modal remix =>
      if Bool.eqb modal (showModal st) && Bool.eqb remix (showRemix st) then (st, [])
      else
        ({| showModal := modal; showRemix := remix; iframeRef := iframeRef st;
            timer := Some {| elapsed := 0; timer_showModal := modal;
                             timer_showRemix := remix |} |}, [])
  | Elapse ms =>
      ({| showModal := showModal st; showRemix := showRemix st; iframeRef := iframeRef st;
          timer := (fun t => {| elapsed := elapsed t + ms;
                                timer_showModal := timer_showModal t;
                                timer_showRemix := timer_showRemix t |}) <$> timer st |}, [])
  | TimerFires =>
      match timer st with
      | Some t =>
          if bool_decide (delay ≤ elapsed t)
          then ({| showModal := showModal st; showRemix := showRemix st;
                   iframeRef := iframeRef st; timer := None |},
                syncGameState (timer_showModal t) (timer_showRemix t) (iframeRef st))
          else (st, [])
      | None => (st, [])
      end
  | IframeLoad => (st, syncGameState (showModal st) (showRemix st) (iframeRef st))
  | SetIframe r =>
      ({| showModal := showModal st; showRemix := showRemix st; iframeRef := r;
          timer := timer st |}, [])
  end.

Fixpoint pause_run (evs : list PauseEvent) (st : PauseState) : PauseState * list Post :=
  match evs with
  | [] => (st, [])
  | ev :: rest =>
      let '(st1, out1) := pause_step st ev in
      let '(st2, out2) := pause_run rest st1 in
      (st2, out1 ++ out2)
  end.

(** Time passing and timers coming due, nothing else. *)
Definition is_wait (ev : PauseEvent) : bool :=
  match ev with
  | Elapse _ | TimerFires => true
  | _ => false
  end.

(** A change of [showModal]/[showRemix]. *)
Definition is_change (ev : PauseEvent) : bool :=
  match ev with
  | SetUI _ _ => true
  | _ => false
  end.

(** Neither a change of state nor a [load] event of the iframe. *)
Definition is_quiet (ev : PauseEvent) : bool :=
  match ev with
  | SetUI _ _ | IframeLoad => false
  | _ => true
  end.

Fixpoint waited (evs : list PauseEvent) : nat :=
  match evs with
  | [] => 0
  | Elapse ms :: rest => ms + waited rest
  | _ :: rest => waited rest
  end.

(** ** Report generation (lines 214-254 and 285-327) *)

(** The values interpolated into the prompt template, in order; the fixed
    text of the template is left out. *)
Record Prompt := {
  inst : Js.val; net : Js.val; acad : Js.val; hist : Js.val; disc : Js.val;
  origin : Js.val; pivot : Js.val; legacy : Js.val;
  t1 : Js.val; t2 : Js.val; t3 : Js.val
}.

(** [data.timeline[i]?.event || 'Unknown'] *)
Definition timelineEvent (data : Js.val) (i : nat) : Js.completion Js.val :=
  timeline ← Js.get data "timeline";
  entry ← Js.index timeline i;
  event ← Js.get_opt entry "event";
  mret (Js.or event (Js.Str "Unknown")).

(** [data.artifacts?.t || 0] *)
Definition artifactCount (data : Js.val) (t : string) : Js.completion Js.val :=
  artifacts ← Js.get data "artifacts";
  count ← Js.get_opt artifacts t;
  mret (Js.or count (Js.Num 0%float)).

(** [data.metrics.m] *)
Definition metric (data : Js.val) (m : string) : Js.completion Js.val :=
  metrics ← Js.get data "metrics";
  Js.get metrics m.

(** The eleven expressions of the template literal, in order. *)
Definition interpolated (data : Js.val) : list (Js.completion Js.val) :=
  [ metric data "inst"; metric data "net"; metric data "acad";
    metric data "hist"; metric data "disc";
    timelineEvent data 0; timelineEvent data 1; timelineEvent data 2;
    artifactCount data "t1"; artifactCount data "t2"; artifactCount data "t3" ].

(** Lines 214-254: each expression of the template literal is evaluated
    and converted to a string before the next one is. *)
Definition generateAnalysisPrompt (data : Js.val) : Js.completion Prompt :=
  inst ← metric data "inst" ≫= Js.interpolate;
  net ← metric data "net" ≫= Js.interpolate;
  acad ← metric data "acad" ≫= Js.interpolate;
  hist ← metric data "hist" ≫= Js.interpolate;
  disc ← metric data "disc" ≫= Js.interpolate;
  origin ← timelineEvent data 0 ≫= Js.interpolate;
  pivot ← timelineEvent data 1 ≫= Js.interpolate;
  legacy ← timelineEvent data 2 ≫= Js.interpolate;
  t1 ← artifactCount data "t1" ≫= Js.interpolate;
  t2 ← artifactCount data "t2" ≫= Js.interpolate;
  t3 ← artifactCount data "t3" ≫= Js.interpolate;
  mret {| inst := inst; net := net; acad := acad; hist := hist; disc := disc;
          origin := origin; pivot := pivot; legacy := legacy;
          t1 := t1; t2 := t2; t3 := t3 |}.

(** The payload of lines 314-318. *)
Definition fallbackReport : Js.val :=
  Js.Obj
    [ ("archetype", Js.Str "DATA FRAGMENTED");
      ("match", Js.Str "Unknown Entity");
      ("narrative", Js.Str "The artist's trajectory was too volatile to record. The signal was lost in the void, leaving only scattered metadata.") ].

(** How the promise of [ai.models.generateContent] settles; [text] is
    [response.text], a string or [undefined]. *)
Inductive Settlement :=
| Fulfilled (text : option string)
| Rejected (e : Js.exn).

(** What the text-generation client and [JSON.parse] do. *)
Record Service := {
  constructs : bool;                     (* [new GoogleGenAI(...)] returns *)
  JSON_parse : string -> option Js.val   (* [None]: it throws a SyntaxError *)
}.

(** Where a call of the async [handleMessage] stands: returned, rejected
    with an exception no [catch] took, or suspended at the [await]. *)
Inductive Progress :=
| Done (out : list Post)
| Uncaught (e : Js.exn)
| Await (prompt : Prompt).

(** The [catch] block, lines 308-321. *)
Definition handleMessage_catch (iframeRef : option HTMLIFrameElement) : list Post :=
  postIfPresent iframeRef (REPORT_GENERATED fallbackReport).

(** Lines 287-300: from the event up to the [await]. *)
Definition handleMessage (service : Service) (iframeRef : option HTMLIFrameElement)
    (data : Js.val) : Progress :=
  match Js.get data "type" with
  | Js.Throw e => Uncaught e
  | Js.Normal type =>
      if Js.is_string type "GAME_OVER" then
        match Js.get data "payload" with
        | Js.Throw e => Uncaught e
        | Js.Normal gameData =>
            let attempt :=
              (if constructs service then mret ()
               else Js.Throw (Js.ServiceError "GoogleGenAI")) ≫= fun _ =>
              generateAnalysisPrompt gameData in
            match attempt with
            | Js.Normal prompt => Await prompt
            | Js.Throw _ => Done (handleMessage_catch iframeRef)
            end
        end
      else Done []
  end.

(** Lines 300-321: from the settlement of the awaited promise to the end.
    [iframeRef] is the ref as it is then. *)
Definition handleMessage_resume (service : Service) (iframeRef : option HTMLIFrameElement)
    (s : Settlement) : Progress :=
  match s with
  | Fulfilled text =>
      match text ≫= JSON_parse service with
      | Some report => Done (postIfPresent iframeRef (REPORT_GENERATED report))
      | None => Done (handleMessage_catch iframeRef)
      end
  | Rejected _ => Done (handleMessage_catch iframeRef)
  end.

(** One completion cycle whose request settles: [iframeRef] is the ref
    when the message arrives, [iframeRef'] the ref when the request
    settles, [outcome] how the request for a prompt settles. *)
Definition completionCycle (service : Service) (outcome : Prompt -> Settlement)
    (iframeRef iframeRef' : option HTMLIFrameElement) (data : Js.val) : Progress :=
  match handleMessage service iframeRef data with
  | Await prompt => handleMessage_resume service iframeRef' (outcome prompt)
  | p => p
  end.

(** Report generation fails: an exception reaches the [catch] block. *)
Definition generationFails (service : Service) (outcome : Prompt -> Settlement)
    (gameData : Js.val) : Prop :=
  constructs service = false
  ∨ (∃ e, generateAnalysisPrompt gameData = Js.Throw e)
  ∨ (∃ prompt, generateAnalysisPrompt gameData = Js.Normal prompt ∧
       match outcome prompt with
       | Rejected _ => True
       | Fulfilled text => text ≫= JSON_parse service = None
       end).

Definition reports (out : list Post) : list Js.val :=
  omap (fun p => match p.2 with REPORT_GENERATED r => Some r | _ => None end) out.

Definition progress_out (p : Progress) : list Post :=
  match p with
  | Done out => out
  | _ => []
  end.

(** ** The host between events *)

Record Host := {
  host_iframeRef : option HTMLIFrameElement;
  inflight : list Prompt     (* requests awaited by suspended handlers *)
}.

Inductive HostEvent :=
| Receive (data : Js.val)               (* a [message] event *)
| Settle (i : nat) (s : Settlement)     (* the [i]-th request in flight settles *)
| Remount (r : option HTMLIFrameElement)
| HandInput (x : float) (isActive : bool).

Definition host_step (service : Service) (st : Host) (ev : HostEvent) : Host * list Post :=
  match ev with
  | Receive data =>
      match handleMessage service (host_iframeRef st) data with
      | Done out => (st, out)
      | Uncaught _ => (st, [])
      | Await prompt =>
          ({| host_iframeRef := host_iframeRef st; inflight := inflight st ++ [prompt] |}, [])
      end
  | Settle i s =>
      match inflight st !! i with
      | Some _ =>
          ({| host_iframeRef := host_iframeRef st; inflight := delete i (inflight st) |},
           progress_out (handleMessage_resume service (host_iframeRef st) s))
      | None => (st, [])
      end
  | Remount r => ({| host_iframeRef := r; inflight := inflight st |}, [])
  | HandInput x a => (st, handleHandInput (host_iframeRef st) x a)
  end.

Fixpoint host_run (service : Service) (evs : list HostEvent) (st : Host) : Host * list Post :=
  match evs with
  | [] => (st, [])
  | ev :: rest =>
      let '(st1, out1) := host_step service st ev in
      let '(st2, out2) := host_run service rest st1 in
      (st2, out1 ++ out2)
  end.

Definition is_completion (ev : HostEvent) : bool :=
  match ev with
  | Receive data =>
      match Js.get data "type" with
      | Js.Normal type => Js.is_string type "GAME_OVER"
      | Js.Throw _ => false
      end
  | _ => false
  end.

End App.

(** * Sample data and auxiliary predicates *)

Section HandControllerData.
Import HandController.

(** Sample data: the overlay canvas of the JSX, a window with all the
    MediaPipe globals, a hand of 21 landmarks and one cut short. *)
Definition sampleCanvas : Canvas :=
  {| width := 320; height := 240; context2d := true |}.

Definition sampleWindow : Window :=
  {| Hands := Some true; Camera := Some (Starts true);
     drawConnectors := true; drawLandmarks := true; HAND_CONNECTIONS := true |}.

Definition sampleLandmark : Landmark.t := Landmark.mk 0.25 0.5 0.

Definition fullHand : list (option Landmark.t) := replicate 21 (Some sampleLandmark).

Definition shortHand : list (option Landmark.t) := replicate 5 (Some sampleLandmark).

Definition frameOf (hands : list (list (option Landmark.t))) : Results :=
  {| multiHandLandmarks := Some (Some <$> hands) |}.

(** The session is Tracking when it holds a camera. *)
Definition tracking (st : State) : Prop := is_Some (cameraRef st).

Definition readyState (active : bool) : State :=
  {| isActive := active; scriptsLoaded := true;
     handsRef := Some {| closure_isActive := false |};
     cameraRef := None; videoRef := active;
     canvasRef := if active then Some sampleCanvas else None |}.

Definition trackingState : State :=
  set_cameraRef (Some {| hasStop := true |}) (readyState true).

Definition emptyLoader : Loader := {| document := ∅; tasks := [] |}.

Definition camera_utils : string :=
  "https://cdn.jsdelivr.net/npm/@mediapipe/camera_utils/camera_utils.js".
Definition drawing_utils : string :=
  "https://cdn.jsdelivr.net/npm/@mediapipe/drawing_utils/drawing_utils.js".
Definition hands_js : string :=
  "https://cdn.jsdelivr.net/npm/@mediapipe/hands/hands.js".

(** Where a single run of [initScripts] over [srcs] stands, read off the
    document: the sources before the awaited one have loaded, the awaited
    one is loading, the ones after it are not registered. *)
Inductive InSequence (srcs : list string) (doc : Document) : Task → Prop :=
| seq_awaiting done src rest :
    srcs = done ++ src :: rest →
    (∀ u, u ∈ done → doc !! u = Some Loaded) →
    doc !! src = Some Loading →
    (∀ u, u ∈ rest → doc !! u = None) →
    InSequence srcs doc (Awaiting src rest)
| seq_resolved :
    (∀ u, u ∈ srcs → doc !! u = Some Loaded) →
    InSequence srcs doc Resolved
| seq_caught done src rest :
    srcs = done ++ src :: rest →
    (∀ u, u ∈ done → doc !! u = Some Loaded) →
    doc !! src = Some Failed →
    (∀ u, u ∈ rest → doc !! u = None) →
    InSequence srcs doc (Caught src).

(** The state of a loader that runs [initScripts] once. *)
Definition single (srcs : list string) (st : Loader) : Prop :=
  ∃ t, tasks st = [t] ∧ InSequence srcs (document st) t.

End HandControllerData.

Section AppData.
Import App.

Definition sampleIframe : HTMLIFrameElement :=
  {| contentWindow := Some {| windowId := 1 |} |}.

(** The game is running: no modal, no pending timer. *)
Definition runningState : PauseState :=
  {| showModal := false; showRemix := false; iframeRef := Some sampleIframe; timer := None |}.

(** The pause flag captured by the pending timer, if any, is [false]. *)
Definition pending_false (st : PauseState) : Prop :=
  match timer st with
  | Some t => timer_showModal t || timer_showRemix t = false
  | None => True
  end.

Definition pending (st : PauseState) : nat :=
  match timer st with
  | Some _ => 1
  | None => 0
  end.

(** A stub client whose parser accepts the texts [{}] and [null] only. *)
Definition stubService : Service :=
  {| constructs := true;
     JSON_parse := λ text,
       if String.eqb text "{}" then Some (Js.Obj [])
       else if String.eqb text "null" then Some Js.Null
       else None |}.

Definition sampleTelemetry : Js.val :=
  Js.Obj
    [ ("metrics", Js.Obj [ ("inst", Js.Num 80); ("net", Js.Num 20); ("acad", Js.Num 90);
                           ("hist", Js.Num 70); ("disc", Js.Num 10) ]);
      ("timeline", Js.Arr [ Js.Obj [("event", Js.Str "studied at academy")];
                            Js.Obj [("event", Js.Str "rejected market")];
                            Js.Obj [("event", Js.Str "retrospective exhibit")] ]);
      ("artifacts", Js.Obj [ ("t1", Js.Num 12); ("t2", Js.Num 3); ("t3", Js.Num 40) ]) ].

Definition gameOver (payload : Js.val) : Js.val :=
  Js.Obj [ ("type", Js.Str "GAME_OVER"); ("payload", payload) ].

Definition networkError : Prompt → Settlement :=
  λ _, Rejected (Js.ServiceError "network").

End AppData.

(** * The rest of the component: unmount, counting effects *)

Section HandControllerLifecycle.
Import HandController.

(** Lines 63-70: the cleanup of the first effect, run when the component
    unmounts. The camera is stopped, and the ref cleared, only when the
    ref holds an object with a [stop] function. *)
Definition cleanup (st : State) : State * list Effect :=
  match cameraRef st with
  | Some camera =>
      if hasStop camera then (set_cameraRef None st, [CameraStop]) else (st, [])
  | None => (st, [])
  end.

(** Lines 53-55: what a run of [initScripts] that got through its awaits
    does; [mounted] is the flag the cleanup sets to [false]. *)
Definition initScripts_done (mounted : bool) : list Event :=
  if mounted then [SetScriptsLoaded] else [].

(** The refs agree with the last render: the video element is mounted
    exactly when [isActive] was true. *)
Definition coherent (st : State) : Prop := videoRef st = isActive st.

Definition is_NewHands (e : Effect) : bool :=
  match e with NewHands => true | _ => false end.

Definition is_CameraStart (e : Effect) : bool :=
  match e with CameraStart => true | _ => false end.

Definition is_CameraStop (e : Effect) : bool :=
  match e with CameraStop => true | _ => false end.

Definition is_SendImage (e : Effect) : bool :=
  match e with SendImage => true | _ => false end.

Definition is_bracket (e : Effect) : bool :=
  match e with Save | Restore => true | _ => false end.

Definition countEffect (p : Effect → bool) (es : list Effect) : nat :=
  length (List.filter p es).

End HandControllerLifecycle.

(** * Strings *)

Module Text.

(** A JavaScript string: a sequence of UTF-16 code units. *)
Abbreviation jsstring := (list N).

(** The code units of an ASCII literal. *)
Definition units (s : string) : jsstring :=
  Ascii.N_of_ascii <$> String.list_ascii_of_string s.

Definition quote : N := 34.

(** [s.startsWith(pat)], the test behind a [^]-anchored literal. *)
Fixpoint startsWith (pat s : jsstring) : bool :=
  match pat, s with
  | [], _ => true
  | p :: pat', c :: s' => N.eqb p c && startsWith pat' s'
  | _ :: _, [] => false
  end.

(** [s.includes(pat)] *)
Fixpoint includes (s pat : jsstring) : bool :=
  startsWith pat s
  || match s with
     | [] => false
     | _ :: s' => includes s' pat
     end.

(** [s.replace(pat, rep)] for a string pattern and a replacement without
    [$]: the first occurrence is replaced. *)
Fixpoint replace (s pat rep : jsstring) : jsstring :=
  if startsWith pat s then rep ++ drop (length pat) s
  else match s with
       | [] => []
       | c :: s' => c :: replace s' pat rep
       end.

(** The test behind a [$]-anchored literal (no [m] flag). *)
Definition endsWith (pat s : jsstring) : bool :=
  startsWith (reverse pat) (reverse s).

(** The code units the regular expression class [\s] matches. *)
Definition isSpace (c : N) : bool :=
  bool_decide (c ∈ [9; 10; 11; 12; 13; 32; 160; 5760; 8192; 8193; 8194; 8195; 8196;
                    8197; 8198; 8199; 8200; 8201; 8202; 8232; 8233; 8239; 8287;
                    12288; 65279]%N).

Fixpoint skipSpaces (s : jsstring) : jsstring :=
  match s with
  | c :: s' => if isSpace c then skipSpaces s' else s
  | [] => []
  end.

(** [s.replace(/^pat\s*/, '')] for a literal [pat]. *)
Definition stripStart (pat s : jsstring) : jsstring :=
  if startsWith pat s then skipSpaces (drop (length pat) s) else s.

(** [s.replace(/pat$/, '')] for a literal [pat]. *)
Definition stripEnd (pat s : jsstring) : jsstring :=
  if endsWith pat s then take (length s - length pat) s else s.

Definition fence : jsstring := units "```".

(** Line 366 of the host shell: the code fences around a remixed game. *)
Definition cleanCode (newCode : jsstring) : jsstring :=
  stripEnd fence (stripStart fence (stripStart (fence ++ units "html") newCode)).

Definition head : jsstring := units "<head>".

Definition baseTag : jsstring :=
  units "<base href=" ++ [quote] ++ units "./init/" ++ [quote] ++ units ">".

(** Lines 338-340 and 367: a [base] element is put after the first
    [<head>] unless the document has the text [<base] already. *)
Definition injectBase (html : jsstring) : jsstring :=
  if negb (includes html (units "<base")) then replace html head (head ++ baseTag)
  else html.

End Text.

(** * The host shell's loading state *)

Module AppShell.

(** [activeModel] is only ever ['gemini3'] or ['gemini2p5']. *)
Inductive Model := gemini3 | gemini2p5.

Record State := {
  activeModel : Model;
  showRemix : bool;
  showModal : bool;
  gameHtml : option Text.jsstring;
  isLoading : bool
}.

(** The [useState] initial values, lines 257-261. *)
Definition initial : State :=
  {| activeModel := gemini3; showRemix := false; showModal := true;
     gameHtml := None; isLoading := true |}.

(** Line 333. *)
Definition gameUrl (model : Model) : string :=
  match model with
  | gemini3 => "./init/gemini3.html"
  | gemini2p5 => "./init/gemini2p5.html"
  end.

(** Line 355. *)
Definition modelId (model : Model) : string :=
  match model with
  | gemini3 => "gemini-3-pro-preview"
  | gemini2p5 => "gemini-2.5-pro"
  end.

(** How the [fetch] of [loadGame] ends: it (or reading the body) rejects,
    or there is a response with its [ok] flag and text. *)
Inductive FetchOutcome :=
| FetchRejects
| Response (ok : bool) (text : Text.jsstring).

(** How the request of [handleRemix] ends; [text] is [response.text], a
    string or [undefined]. *)
Inductive RemixOutcome :=
| RemixRejects
| RemixResponse (text : option Text.jsstring).

(** Lines 330-331: [loadGame] up to the [fetch]. *)
Definition loadGame_begin (st : State) : State :=
  {| activeModel := activeModel st; showRemix := showRemix st; showModal := showModal st;
     gameHtml := None; isLoading := true |}.

(** Lines 334-346: [loadGame] from the settlement of the [fetch] on. *)
Definition loadGame_settle (outcome : FetchOutcome) (st : State) : State :=
  match outcome with
  | Response true text =>
      {| activeModel := activeModel st; showRemix := showRemix st;
         showModal := showModal st;
         gameHtml := Some (Text.injectBase text); isLoading := false |}
  | _ =>
      {| activeModel := activeModel st; showRemix := showRemix st;
         showModal := showModal st;
         gameHtml := gameHtml st; isLoading := false |}
  end.

(** Lines 350-351: [handleRemix] up to the request. *)
Definition handleRemix_begin (st : State) : State :=
  {| activeModel := activeModel st; showRemix := false; showModal := showModal st;
     gameHtml := gameHtml st; isLoading := true |}.

(** Lines 365-374: [handleRemix] from the settlement of the request on;
    the flag says whether the failure alert is shown. Calling [replace]
    on an [undefined] text throws, which the [catch] takes. *)
Definition handleRemix_settle (outcome : RemixOutcome) (st : State) : State * bool :=
  match outcome with
  | RemixResponse (Some text) =>
      ({| activeModel := activeModel st; showRemix := showRemix st;
          showModal := showModal st;
          gameHtml := Some (Text.injectBase (Text.cleanCode text));
          isLoading := false |}, false)
  | _ =>
      ({| activeModel := activeModel st; showRemix := showRemix st;
          showModal := showModal st;
          gameHtml := gameHtml st; isLoading := false |}, true)
  end.

(** Line 412: [!isLoading && gameHtml]; the empty string is falsy. *)
Definition iframeRendered (st : State) : bool :=
  negb (isLoading st)
  && match gameHtml st with
     | Some (_ :: _) => true
     | _ => false
     end.

(** Line 426: the [isActive] prop given to [HandController]. *)
Definition handActive (st : State) : bool :=
  negb (isLoading st) && negb (showModal st) && negb (showRemix st).

(** Line 273. *)
Definition isPaused (st : State) : bool := showModal st || showRemix st.

End AppShell.


(** * More sample data *)

Section MoreData.

(** Telemetry with one metric, an empty first event, a second timeline
    entry that is a string, no third entry, a [NaN] count and a missing
    count. *)
Definition partialTelemetry : Js.val :=
  Js.Obj [("metrics", Js.Obj [("inst", Js.Num 80)]);
          ("timeline", Js.Arr [Js.Obj [("event", Js.Str "")]; Js.Str "x"]);
          ("artifacts", Js.Obj [("t1", Js.Num nan); ("t2", Js.Num 3)])].

Definition partialPrompt : App.Prompt :=
  {| App.inst := Js.Num 80; App.net := Js.Undefined; App.acad := Js.Undefined;
     App.hist := Js.Undefined; App.disc := Js.Undefined;
     App.origin := Js.Str "Unknown"; App.pivot := Js.Str "Unknown";
     App.legacy := Js.Str "Unknown";
     App.t1 := Js.Num 0; App.t2 := Js.Num 3; App.t3 := Js.Num 0 |}.

(** The completion messages among the events. *)
(** An interpolated expression has a value, and the value converts to a
    string. *)
Definition converts (c : Js.completion Js.val) : bool :=
  match c with
  | Js.Normal v => Js.convertible v
  | Js.Throw _ => false
  end.

(** A telemetry whose first metric is an object with a [toString]
    property of its own. *)
Definition opaqueTelemetry : Js.val :=
  Js.Obj [ ("metrics", Js.Obj [("inst", Js.Obj [("toString", Js.Num 1);
                                                ("valueOf", Js.Num 1)])]);
           ("timeline", Js.Arr []) ].

Definition completions (evs : list App.HostEvent) : nat :=
  length (List.filter App.is_completion evs).

(** The first code unit of a string, if any, is neither white space nor
    a backtick. *)
Definition plainStart (s : Text.jsstring) : Prop :=
  match s with
  | c :: _ => Text.isSpace c = false ∧ c ≠ 96%N
  | [] => True
  end.

End MoreData.

(** * The input normalizer *)

Section Normalizer.
Import HandController.

Lemma inputs_app (es1 es2 : list Effect) :
  inputs (es1 ++ es2) = inputs es1 ++ inputs es2.
Proof.
  induction es1 as [|e es1 IH]; [done|].
  destruct e; simpl; by rewrite ?IH.
Qed.

Lemma inputs_when (b : bool) (e : Effect) :
  (∀ x a, e ≠ OnInput x a) → inputs (when b e) = [].
Proof.
  intros He. destruct b; [|done].
  destruct e; simpl; try done. exfalso. by eapply He.
Qed.

(** Without a canvas, or without its 2d context, [onResults] returns
    before doing anything. *)
Lemma onResults_no_canvas (active : bool) (window : Window) (results : Results) :
  onResults active None window results = [].
Proof. reflexivity. Qed.

Lemma onResults_no_context (active : bool) (canvas : Canvas) (window : Window)
    (results : Results) :
  context2d canvas = false → onResults active (Some canvas) window results = [].
Proof. intros H. unfold onResults. by rewrite H. Qed.

(** With a canvas and its context, the [onInput] calls of [onResults] are
    those of lines 150-179. *)
Lemma onResults_inputs (active : bool) (canvas : Canvas) (window : Window)
    (results : Results) :
  context2d canvas = true →
  inputs (onResults active (Some canvas) window results)
  = inputs (onResults_landmarks active canvas window results).
Proof.
  intros H. unfold onResults. rewrite H. simpl.
  rewrite !inputs_app, inputs_when by done. simpl.
  destruct (thrown _); simpl; by rewrite app_nil_r.
Qed.

(** A hand whose landmark 9 is at x = 0.25: mirrored to 0.75, mapped to
    0.5, with the cursor at (240, 120) on the 320 x 240 canvas. *)
Example onResults_hand :
  onResults true (Some sampleCanvas) sampleWindow (frameOf [fullHand])
  = [Save; ClearRect; StrokeGrid; OnInput 0.5 true; DrawConnectors; DrawLandmarks;
     FillCursor 240 120; Restore].
Proof. reflexivity. Qed.

Example onResults_no_hand :
  onResults true (Some sampleCanvas) sampleWindow (frameOf [])
  = [Save; ClearRect; StrokeGrid; OnInput 0 false; FillSearching; Restore].
Proof. reflexivity. Qed.

(** C1, as stated, fails: while the overlay canvas is not mounted (or
    gives no 2d context) the normalizer returns at line 135, so a frame
    without a detection yields no signal at all, where the claim has
    {x: 0, active: false}; and a frame with landmark 9 yields none
    either. *)
Lemma no_signal_without_canvas :
  multiHandLandmarks (frameOf []) = Some []
  ∧ inputs (onResults true None sampleWindow (frameOf [])) = []
  ∧ inputs (onResults true None sampleWindow (frameOf [])) ≠ [(0%float, false)]
  ∧ fullHand !! 9 = Some (Some sampleLandmark)
  ∧ inputs (onResults true (Some {| width := 320; height := 240; context2d := false |})
              sampleWindow (frameOf [fullHand])) = [].
Proof. split_and!; try reflexivity. discriminate. Qed.

(** C1, amended. When the overlay canvas is mounted and gives a 2d
    context: for a frame whose first hand has landmark 9 with x-coordinate
    [v], [onResults] calls [onInput((1 - v - 0.5) * 2, true)], once; for a
    frame without a detection (no [multiHandLandmarks], or an empty one) it
    calls [onInput(0, false)], once. Without the canvas or without its
    context, [onResults] does nothing whatever the frame. *)
Theorem normalize_signal (active : bool) (canvasRef : option Canvas) (window : Window)
    (results : Results) :
  (∀ canvas, canvasRef = Some canvas → context2d canvas = true →
     (∀ landmarks others lm9,
        multiHandLandmarks results = Some (Some landmarks :: others) →
        landmarks !! 9 = Some (Some lm9) →
        inputs (onResults active canvasRef window results)
        = [(((1 - Landmark.x lm9 - 0.5) * 2)%float, true)])
     ∧ (multiHandLandmarks results = None ∨ multiHandLandmarks results = Some [] →
        inputs (onResults active canvasRef window results) = [(0%float, false)]))
  ∧ (canvasRef = None ∨ (∃ canvas, canvasRef = Some canvas ∧ context2d canvas = false) →
     onResults active canvasRef window results = []).
Proof.
  split.
  - intros canvas -> Hctx. split.
    + intros landmarks others lm9 Hres Hlm.
      rewrite onResults_inputs by done.
      unfold onResults_landmarks. rewrite Hres, Hlm. simpl.
      rewrite !inputs_app, !inputs_when by done. reflexivity.
    + intros Hres. rewrite onResults_inputs by done.
      destruct Hres as [Hres|Hres]; unfold onResults_landmarks; rewrite Hres; simpl;
        by rewrite inputs_when.
  - intros [->|(canvas & -> & Hctx)]; [done|].
    unfold onResults. by rewrite Hctx.
Qed.

Lemma normalize_signal_witness :
  (context2d sampleCanvas = true
   ∧ multiHandLandmarks (frameOf [fullHand]) = Some [Some fullHand]
   ∧ fullHand !! 9 = Some (Some sampleLandmark)
   ∧ inputs (onResults true (Some sampleCanvas) sampleWindow (frameOf [fullHand]))
     = [(((1 - 0.25 - 0.5) * 2)%float, true)])
  ∧ inputs (onResults true (Some sampleCanvas) sampleWindow (frameOf []))
    = [(0%float, false)]
  ∧ onResults true None sampleWindow (frameOf [fullHand]) = [].
Proof.
  split; [split; [reflexivity | split; [reflexivity | split; [reflexivity|]]]|split].
  - apply (proj1 (proj1 (normalize_signal true (Some sampleCanvas) sampleWindow
                           (frameOf [fullHand]))
                    sampleCanvas eq_refl eq_refl)
             fullHand [] sampleLandmark); reflexivity.
  - apply (proj2 (proj1 (normalize_signal true (Some sampleCanvas) sampleWindow
                           (frameOf []))
                    sampleCanvas eq_refl eq_refl)).
    right; reflexivity.
  - apply (proj2 (normalize_signal true None sampleWindow (frameOf [fullHand]))).
    left; reflexivity.
Defined.

(** C2, as stated, fails: for a detected hand of five landmarks the
    normalizer makes no [onInput] call, where an empty detection gives
    [onInput(0, false)]. *)
Lemma malformed_frame_not_NoHand :
  multiHandLandmarks (frameOf [shortHand]) = Some [Some shortHand]
  ∧ shortHand !! 9 = None
  ∧ inputs (onResults true (Some sampleCanvas) sampleWindow (frameOf [shortHand])) = []
  ∧ inputs (onResults true (Some sampleCanvas) sampleWindow (frameOf []))
    = [(0%float, false)]
  ∧ inputs (onResults_landmarks true sampleCanvas sampleWindow (frameOf [shortHand]))
    ≠ inputs (onResults_landmarks true sampleCanvas sampleWindow (frameOf [])).
Proof. repeat split; try reflexivity. discriminate. Qed.

(** C2, amended. For a frame with a detection whose landmark 9 is absent
    (out of range, or a hole), lines 150-179 do nothing: no [onInput]
    call is made and nothing is drawn. *)
Theorem malformed_frame_skipped (active : bool) (canvas : Canvas) (window : Window)
    (results : Results) (landmarks : list (option Landmark.t))
    (others : list (option (list (option Landmark.t)))) :
  multiHandLandmarks results = Some (Some landmarks :: others) →
  landmarks !! 9 = None ∨ landmarks !! 9 = Some None →
  onResults_landmarks active canvas window results = []
  ∧ inputs (onResults active (Some canvas) window results) = [].
Proof.
  intros Hres Hlm.
  assert (onResults_landmarks active canvas window results = []) as Hnone.
  { unfold onResults_landmarks. rewrite Hres. by destruct Hlm as [-> | ->]. }
  split; [done|].
  unfold onResults. destruct (context2d canvas); simpl; [|done].
  rewrite Hnone. by destruct active.
Qed.

Lemma malformed_frame_skipped_witness :
  multiHandLandmarks (frameOf [shortHand]) = Some [Some shortHand]
  ∧ shortHand !! 9 = None
  ∧ onResults_landmarks true sampleCanvas sampleWindow (frameOf [shortHand]) = []
  ∧ inputs (onResults true (Some sampleCanvas) sampleWindow (frameOf [shortHand])) = [].
Proof.
  split; [reflexivity | split; [reflexivity|]].
  apply (malformed_frame_skipped true sampleCanvas sampleWindow
           (frameOf [shortHand]) shortHand []); [reflexivity | left; reflexivity].
Defined.

End Normalizer.

(** * The tracking session *)

Section TrackingSession.
Import HandController.
Context (window : Window).

Lemma initHands_inputs (st : State) :
  canvasRef (initHands window st).1 = canvasRef st
  ∧ isActive (initHands window st).1 = isActive st
  ∧ inputs (initHands window st).2 = [].
Proof.
  unfold initHands.
  destruct (negb (scriptsLoaded st) || bool_decide (is_Some (handsRef st))); [done|].
  by destruct (Hands window) as [[]|].
Qed.

Lemma cameraEffect_inputs (active : bool) (st : State) :
  canvasRef (cameraEffect window active st).1 = canvasRef st
  ∧ inputs (cameraEffect window active st).2 = [].
Proof.
  unfold cameraEffect.
  destruct (negb (scriptsLoaded st) || negb (bool_decide (is_Some (handsRef st)))
            || negb (videoRef st)); [done|].
  destruct active.
  - by destruct (cameraRef st), (Camera window) as [[]|].
  - destruct (cameraRef st) as [[[]]|]; done.
Qed.

(** While the canvas is unmounted, an event that is not an activating
    render leaves it unmounted and makes no [onInput] call. *)
Lemma step_unmounted (st : State) (ev : Event) :
  canvasRef st = None → activation ev = false →
  canvasRef (step window st ev).1 = None ∧ inputs (step window st ev).2 = [].
Proof.
  intros Hcanvas Hev. destruct ev as [[] fresh| | |results]; simpl in *; try done.
  - destruct (isActive st); simpl; [|done].
    destruct (cameraEffect_inputs false (commit false fresh st)) as [-> ->]. done.
  - destruct (scriptsLoaded st); [done|].
    pose proof (initHands_inputs (set_scriptsLoaded true st)) as (Hc & _ & Hi).
    destruct (initHands window (set_scriptsLoaded true st)) as [st2 out2]. simpl in *.
    pose proof (cameraEffect_inputs (isActive st2) st2) as [Hc' Hi'].
    destruct (cameraEffect window (isActive st2) st2) as [st3 out3]. simpl in *.
    rewrite inputs_app, Hi, Hi'. split; [congruence|done].
  - split; [done|]. destruct (cameraRef st); [|done].
    unfold onFrame. by apply inputs_when.
  - split; [done|]. rewrite Hcanvas. by destruct (handsRef st).
Qed.

Lemma run_unmounted (evs : list Event) (st : State) :
  canvasRef st = None → forallb (λ ev, negb (activation ev)) evs = true →
  inputs (run window evs st).2 = [].
Proof.
  revert st. induction evs as [|ev evs IH]; intros st Hcanvas Hevs; [done|].
  simpl in Hevs. apply andb_prop in Hevs as [Hev Hevs].
  apply negb_true_iff in Hev.
  destruct (step_unmounted st ev Hcanvas Hev) as [Hc Hi].
  simpl. destruct (step window st ev) as [st1 out1]. simpl in *.
  specialize (IH st1 Hc Hevs).
  destruct (run window evs st1) as [st2 out2]. simpl in *.
  by rewrite inputs_app, Hi, IH.
Qed.

(** The render that deactivates the session unmounts the canvas. *)
Lemma deactivation_unmounts (st : State) (fresh : Canvas) :
  canvasRef (step window st (Render false fresh)).1 = None
  ∧ inputs (step window st (Render false fresh)).2 = [].
Proof.
  cbn [step]. destruct (Bool.eqb false (isActive st)); [done|].
  by destruct (cameraEffect_inputs false (commit false fresh st)) as [-> ->].
Qed.

(** The render that deactivates the session unmounts the video element
    too, so the camera effect that follows returns at its first test: it
    neither stops nor releases the camera. *)
Lemma deactivating_render_keeps_camera (st : State) (fresh : Canvas) :
  (step window st (Render false fresh)).2 = []
  ∧ cameraRef (step window st (Render false fresh)).1 = cameraRef st.
Proof.
  cbn [step]. destruct (Bool.eqb false (isActive st)); [done|].
  unfold cameraEffect. cbn [commit videoRef negb]. by rewrite orb_true_r.
Qed.

(** C7. Once the session is deactivated (the component is rendered with
    [isActive] false), whatever arrives before the next activation (in
    particular the engine's callback for a frame still in flight) makes no
    [onInput] call, so the host posts no input message to the guest. *)
Theorem no_input_after_deactivation (st : State) (fresh : Canvas) (evs : list Event)
    (iframeRef : option App.HTMLIFrameElement) :
  forallb (λ ev, negb (activation ev)) evs = true →
  inputs (run window (Render false fresh :: evs) st).2 = []
  ∧ App.forwardInputs iframeRef (inputs (run window (Render false fresh :: evs) st).2) = [].
Proof.
  intros Hevs.
  assert (inputs (run window (Render false fresh :: evs) st).2 = []) as Hnone.
  { destruct (deactivation_unmounts st fresh) as [Hc Hi].
    cbn [run]. destruct (step window st (Render false fresh)) as [st1 out1]. simpl in *.
    pose proof (run_unmounted evs st1 Hc Hevs) as Hrun.
    destruct (run window evs st1) as [st2 out2]. simpl in *.
    by rewrite inputs_app, Hi, Hrun. }
  by rewrite Hnone.
Qed.

(** C8. Activating a session that is Tracking, and deactivating one that
    is not, is a no-op of the camera effect: it makes no device call and
    leaves the state as it is; the renders that do so create and stop no
    camera. *)
Theorem activation_idempotent (st : State) (fresh : Canvas) :
  (tracking st → cameraEffect window true st = (st, []))
  ∧ (¬ tracking st → cameraEffect window false st = (st, []))
  ∧ (tracking st →
       (step window st (Render true fresh)).2 = []
       ∧ cameraRef (step window st (Render true fresh)).1 = cameraRef st)
  ∧ (¬ tracking st →
       (step window st (Render false fresh)).2 = []
       ∧ cameraRef (step window st (Render false fresh)).1 = cameraRef st).
Proof.
  assert (Hon : tracking st → ∀ st', cameraRef st' = cameraRef st →
                cameraEffect window true st' = (st', [])).
  { intros [camera Hcam] st' Heq. unfold cameraEffect. rewrite Heq, Hcam.
    by destruct (_ || _). }
  assert (Hoff : ¬ tracking st → ∀ st', cameraRef st' = cameraRef st →
                 cameraEffect window false st' = (st', [])).
  { intros Hnot st' Heq. unfold cameraEffect, tracking in *. rewrite Heq.
    destruct (cameraRef st); [by destruct Hnot|]. by destruct (_ || _). }
  split; [|split; [|split]].
  - intros Ht. by apply Hon.
  - intros Ht. by apply Hoff.
  - intros Ht. cbn [step]. destruct (Bool.eqb true (isActive st)); [done|].
    by rewrite (Hon Ht (commit true fresh st)).
  - intros Ht. cbn [step]. destruct (Bool.eqb false (isActive st)); [done|].
    by rewrite (Hoff Ht (commit false fresh st)).
Qed.

End TrackingSession.

(** A session from the first render (the intro modal is open) on: the
    scripts load, the modal is closed, a hand is seen, the remix menu is
    opened, and the result of a frame still in flight arrives. *)
Example session_trace :
  (HandController.run sampleWindow
     [HandController.SetScriptsLoaded;
      HandController.Render true sampleCanvas;
      HandController.ResultsReady (frameOf [fullHand]);
      HandController.Render false sampleCanvas;
      HandController.ResultsReady (frameOf [fullHand])]
     (HandController.mount false sampleCanvas)).2
  = [HandController.NewHands;
     HandController.NewCamera; HandController.CameraStart;
     HandController.Save; HandController.ClearRect;
     HandController.OnInput 0.5 true;
     HandController.DrawConnectors; HandController.DrawLandmarks;
     HandController.FillCursor 240 120; HandController.Restore].
Proof. reflexivity. Qed.

(** The result for a hand, a camera frame and the result for an empty
    frame arrive after the deactivation of a tracking session. *)
Lemma no_input_after_deactivation_witness :
  HandController.inputs
    (HandController.run sampleWindow
       [HandController.Render false sampleCanvas;
        HandController.ResultsReady (frameOf [fullHand]);
        HandController.CameraFrame;
        HandController.ResultsReady (frameOf [])]
       trackingState).2 = []
  ∧ App.forwardInputs (Some {| App.contentWindow := Some {| App.windowId := 1 |} |})
      (HandController.inputs
         (HandController.run sampleWindow
            [HandController.Render false sampleCanvas;
             HandController.ResultsReady (frameOf [fullHand]);
             HandController.CameraFrame;
             HandController.ResultsReady (frameOf [])]
            trackingState).2) = [].
Proof.
  apply (no_input_after_deactivation sampleWindow trackingState sampleCanvas
           [HandController.ResultsReady (frameOf [fullHand]);
            HandController.CameraFrame;
            HandController.ResultsReady (frameOf [])]).
  reflexivity.
Defined.

(** The camera effect runs with [isActive] true on a session that holds a
    camera, and with [isActive] false on one that is ready and holds none. *)
Lemma activation_idempotent_witness :
  tracking trackingState
  ∧ HandController.cameraEffect sampleWindow true trackingState = (trackingState, [])
  ∧ ¬ tracking (readyState true)
  ∧ HandController.cameraEffect sampleWindow false (readyState true)
    = (readyState true, []).
Proof.
  pose proof (activation_idempotent sampleWindow trackingState sampleCanvas) as Hon.
  pose proof (activation_idempotent sampleWindow (readyState true) sampleCanvas) as Hoff.
  assert (tracking trackingState) as Ht by (by eexists).
  assert (¬ tracking (readyState true)) as Hn by (by intros [? ?]).
  split; [exact Ht|]. split; [exact (proj1 Hon Ht)|].
  split; [exact Hn|]. exact (proj1 (proj2 Hoff) Hn).
Defined.

(** * The capability loader *)

Section CapabilityLoader.
Import HandController.

(** A registered source is skipped: no element is appended, nothing is
    awaited. *)
Lemma initScripts_skip (doc : Document) (src : string) (rest : list string) :
  is_Some (doc !! src) →
  initScripts_from (src :: rest) doc = initScripts_from rest doc.
Proof. intros [status Hsrc]. simpl. unfold loadScript. by rewrite Hsrc. Qed.

Lemma initScripts_in_sequence (srcs done rest : list string) (doc : Document) :
  srcs = done ++ rest →
  NoDup rest →
  (∀ u, u ∈ done → doc !! u = Some Loaded) →
  (∀ u, u ∈ rest → doc !! u = None) →
  InSequence srcs (initScripts_from rest doc).2 (initScripts_from rest doc).1.
Proof.
  intros Hsrcs Hnd Hdone Hrest. destruct rest as [|src rest]; simpl.
  - apply seq_resolved. intros u Hu. apply Hdone. by rewrite Hsrcs, app_nil_r in Hu.
  - unfold loadScript. rewrite (Hrest src) by (by left). simpl.
    apply NoDup_cons in Hnd as [Hsrc Hnd].
    apply (seq_awaiting _ _ done); [done| |by rewrite lookup_insert_eq|].
    + intros u Hu. rewrite lookup_insert_ne; [by apply Hdone|].
      intros ->. specialize (Hdone _ Hu). rewrite (Hrest u) in Hdone by (by left). done.
    + intros u Hu. rewrite lookup_insert_ne; [apply Hrest; by right|].
      by intros ->.
Qed.

Lemma in_sequence_other (srcs : list string) (doc : Document) (t : Task)
    (u : string) (status : ScriptStatus) :
  doc !! u = Some Loading → InSequence srcs doc t →
  (∀ src rest, t ≠ Awaiting src rest ∨ src ≠ u) →
  InSequence srcs (<[u := status]> doc) t.
Proof.
  intros Hu Hseq Hother.
  destruct Hseq as [done src rest Hsrcs Hdone Hsrc Hrest|Hall|done src rest Hsrcs Hdone Hsrc Hrest].
  - assert (src ≠ u) by (destruct (Hother src rest); done).
    apply (seq_awaiting _ _ done); [done| |by rewrite lookup_insert_ne|].
    + intros v Hv. rewrite lookup_insert_ne; [by apply Hdone|].
      intros ->. specialize (Hdone _ Hv). congruence.
    + intros v Hv. rewrite lookup_insert_ne; [by apply Hrest|].
      intros ->. specialize (Hrest _ Hv). congruence.
  - apply seq_resolved. intros v Hv. rewrite lookup_insert_ne; [by apply Hall|].
    intros ->. specialize (Hall _ Hv). congruence.
  - apply (seq_caught _ _ done src rest); [done| | |].
    + intros v Hv. rewrite lookup_insert_ne; [by apply Hdone|].
      intros ->. specialize (Hdone _ Hv). congruence.
    + rewrite lookup_insert_ne; [done|]. intros ->. congruence.
    + intros v Hv. rewrite lookup_insert_ne; [by apply Hrest|].
      intros ->. specialize (Hrest _ Hv). congruence.
Qed.

Lemma settled_in_sequence (srcs : list string) (st : Loader) (u : string) (ok : bool) :
  NoDup srcs → single srcs st → document st !! u = Some Loading →
  single srcs
    (let '(ts, doc) :=
       settle_all u ok (tasks st) (<[u := if ok then Loaded else Failed]> (document st)) in
     {| document := doc; tasks := ts |}).
Proof.
  intros Hnd (t & Hts & Hseq) Hu. rewrite Hts. simpl.
  destruct t as [src rest| |src]; simpl.
  - destruct (String.eqb_spec src u) as [->|Hne].
    + inversion Hseq as [done src' rest' Hsrcs Hdone Hsrc Hrest| |]; subst.
      apply NoDup_app in Hnd as (Hnd1 & Hnd2 & Hnd3).
      apply NoDup_cons in Hnd3 as [Hu3 Hnd3].
      destruct ok.
      * pose proof (initScripts_in_sequence (done ++ u :: rest) (done ++ [u]) rest
                      (<[u := Loaded]> (document st))) as Hnext.
        destruct (initScripts_from rest (<[u := Loaded]> (document st))) as [t' doc'].
        exists t'. split; [done|]. apply Hnext; [by rewrite <-app_assoc|done| |].
        -- intros v Hv. destruct (decide (v = u)) as [->|Hvu];
             [by rewrite lookup_insert_eq|].
           rewrite lookup_insert_ne by done. apply Hdone.
           by apply elem_of_app in Hv as [Hv|Hv%list_elem_of_singleton].
        -- intros v Hv. rewrite lookup_insert_ne; [by apply Hrest|]. by intros ->.
      * exists (Caught u). split; [done|]. simpl.
        apply (seq_caught _ _ done u rest); [done| |by rewrite lookup_insert_eq|].
        -- intros v Hv. rewrite lookup_insert_ne; [by apply Hdone|].
           intros Heq. subst. eapply Hnd2; [exact Hv|by left].
        -- intros v Hv. rewrite lookup_insert_ne; [by apply Hrest|]. by intros ->.
    + exists (Awaiting src rest). split; [done|].
      apply in_sequence_other; [done..|]. intros src' rest'.
      destruct (decide (src' = u)) as [->|]; [left; congruence|by right].
  - exists Resolved. split; [done|]. apply in_sequence_other; [done..|]. by left.
  - exists (Caught src). split; [done|]. apply in_sequence_other; [done..|]. by left.
Qed.

Lemma loader_step_single (srcs : list string) (st : Loader) (ev : LoaderEvent) :
  NoDup srcs → single srcs st → is_invoke ev = false →
  single srcs (loader_step srcs st ev).
Proof.
  intros Hnd Hst Hev. destruct ev as [|u|u]; [done| |]; simpl.
  - destruct (document st !! u) as [[]|] eqn:Hu; try done.
    by apply (settled_in_sequence srcs st u true).
  - destruct (document st !! u) as [[]|] eqn:Hu; try done.
    by apply (settled_in_sequence srcs st u false).
Qed.

Lemma loader_run_single (srcs : list string) (evs : list LoaderEvent) (st : Loader) :
  NoDup srcs → single srcs st → forallb (λ ev, negb (is_invoke ev)) evs = true →
  single srcs (loader_run srcs evs st).
Proof.
  intros Hnd. revert st. induction evs as [|ev evs IH]; intros st Hst Hevs; [done|].
  simpl in Hevs. apply andb_prop in Hevs as [Hev Hevs]. apply negb_true_iff in Hev.
  apply IH; [|done]. by apply loader_step_single.
Qed.

Lemma invoke_single (srcs : list string) (doc : Document) :
  NoDup srcs → (∀ u, u ∈ srcs → doc !! u = None) →
  single srcs (loader_step srcs {| document := doc; tasks := [] |} Invoke).
Proof.
  intros Hnd Hfree. simpl.
  pose proof (initScripts_in_sequence srcs [] srcs doc eq_refl Hnd) as Hseq.
  destruct (initScripts_from srcs doc) as [t doc']. exists t. split; [done|].
  apply Hseq; [by intros u Hu%elem_of_nil|done].
Qed.

Lemma urls_NoDup : NoDup urls.
Proof. compute_done. Qed.

End CapabilityLoader.

Section CapabilityLoaderClaims.
Import HandController.

Lemma in_sequence_resolved (srcs : list string) (doc : Document) :
  InSequence srcs doc Resolved → ∀ u, u ∈ srcs → doc !! u = Some Loaded.
Proof. by inversion 1. Qed.

Lemma in_sequence_one_loading (srcs : list string) (doc : Document) (t : Task) (u v : string) :
  InSequence srcs doc t → u ∈ srcs → v ∈ srcs →
  doc !! u = Some Loading → doc !! v = Some Loading → u = v.
Proof.
  intros Hseq Hu Hv Hlu Hlv.
  assert (∀ w, w ∈ srcs → doc !! w = Some Loading →
               ∃ rest, t = Awaiting w rest) as Hawaited.
  { intros w Hw Hlw.
    destruct Hseq as [done src rest -> Hdone Hsrc Hrest|Hall
                     |done src rest -> Hdone Hsrc Hrest].
    - apply elem_of_app in Hw as [Hw|Hw]; [specialize (Hdone _ Hw); congruence|].
      apply elem_of_cons in Hw as [->|Hw]; [by eexists|].
      specialize (Hrest _ Hw); congruence.
    - specialize (Hall _ Hw). congruence.
    - apply elem_of_app in Hw as [Hw|Hw]; [specialize (Hdone _ Hw); congruence|].
      apply elem_of_cons in Hw as [->|Hw]; [congruence|].
      specialize (Hrest _ Hw); congruence. }
  destruct (Hawaited u Hu Hlu) as [rest1 ->].
  destruct (Hawaited v Hv Hlv) as [rest2 Heq]. congruence.
Qed.

Lemma in_sequence_order (srcs : list string) (doc : Document) (t : Task)
    (before after : list string) (v : string) :
  InSequence srcs doc t → srcs = before ++ v :: after → is_Some (doc !! v) →
  ∀ u, u ∈ before → doc !! u = Some Loaded.
Proof.
  intros Hseq Hsplit [status Hv] u Hu.
  assert (∀ done src rest,
            srcs = done ++ src :: rest →
            (∀ w, w ∈ done → doc !! w = Some Loaded) →
            (∀ w, w ∈ rest → doc !! w = None) →
            doc !! u = Some Loaded) as Hprefix.
  { intros done src rest Hsrcs Hdone Hrest. rewrite Hsplit in Hsrcs.
    apply app_eq_app in Hsrcs as [l [[Hb Hl]|[Hd Hl]]].
    - destruct l as [|w l]; simpl in Hl.
      + apply Hdone. by rewrite Hb, app_nil_r in Hu.
      + injection Hl as _ Hr. rewrite (Hrest v) in Hv; [done|].
        rewrite Hr. apply elem_of_app. right. by left.
    - apply Hdone. rewrite Hd. apply elem_of_app. by left. }
  destruct Hseq as [done src rest Hsrcs Hdone Hsrc Hrest|Hall
                   |done src rest Hsrcs Hdone Hsrc Hrest].
  - by apply (Hprefix done src rest).
  - apply Hall. rewrite Hsplit. apply elem_of_app. by left.
  - by apply (Hprefix done src rest).
Qed.



End CapabilityLoaderClaims.


(** * Pause synchronisation *)

Section PauseDebounce.
Import App.

Lemma syncGameState_payload (m r : bool) (ref : option HTMLIFrameElement) :
  Forall (λ p : Post, p.2 = PAUSE_GAME (m || r)) (syncGameState m r ref)
  ∧ length (syncGameState m r ref) ≤ 1.
Proof.
  unfold syncGameState, postIfPresent.
  destruct (guestWindow ref); simpl; split; auto with lia.
Qed.

(** While less than [delay] has elapsed since the timer was set, without
    a change of state or a load of the iframe nothing is posted: the
    timer ages, and the iframe may be remounted. *)
Lemma quiet_before_due (evs : list PauseEvent) (st : PauseState) (t : Timer) :
  timer st = Some t → forallb is_quiet evs = true → elapsed t + waited evs < delay →
  (pause_run evs st).2 = []
  ∧ (pause_run evs st).1
    = {| showModal := showModal st; showRemix := showRemix st;
         iframeRef := iframeRef (pause_run evs st).1;
         timer := Some {| elapsed := elapsed t + waited evs;
                          timer_showModal := timer_showModal t;
                          timer_showRemix := timer_showRemix t |} |}.
Proof.
  revert st t. induction evs as [|ev evs IH]; intros st t Ht Hevs Hdue.
  - simpl. rewrite Nat.add_0_r. split; [done|]. destruct st, t; simpl in *. by subst.
  - simpl in Hevs. apply andb_prop in Hevs as [Hev Hevs].
    destruct ev as [| ms | | |r]; try done; cbn [pause_run pause_step waited] in *.
    + rewrite Ht. cbn [fmap option_fmap option_map].
      match goal with
      | |- context [pause_run evs ?s] =>
          destruct (IH s _ eq_refl Hevs) as [Hout Hst]; [simpl; lia|];
          destruct (pause_run evs s) as [st2 out2]
      end.
      simpl in *. split; [done|]. rewrite Hst. simpl. do 3 f_equal. lia.
    + rewrite Ht. rewrite bool_decide_eq_false_2 by lia.
      destruct (IH st t Ht Hevs Hdue) as [Hout Hst].
      destruct (pause_run evs st) as [st2 out2]. simpl in *. done.
    + match goal with
      | |- context [pause_run evs ?s] =>
          destruct (IH s t Ht Hevs Hdue) as [Hout Hst];
          destruct (pause_run evs s) as [st2 out2]
      end.
      simpl in *. done.
Qed.

(** While the game runs and the pending timer, if any, carries [false],
    whatever happens short of a change of state posts [PAUSE_GAME false]
    only. *)
Lemma running_posts_final (evs : list PauseEvent) (st : PauseState) :
  pending_false st → showModal st || showRemix st = false →
  forallb (λ ev, negb (is_change ev)) evs = true →
  Forall (λ p : Post, p.2 = PAUSE_GAME false) (pause_run evs st).2.
Proof.
  revert st. induction evs as [|ev evs IH]; intros st Hst Hrun Hevs; [by constructor|].
  simpl in Hevs. apply andb_prop in Hevs as [Hev Hevs].
  assert (pending_false (pause_step st ev).1
          ∧ showModal (pause_step st ev).1 || showRemix (pause_step st ev).1 = false
          ∧ Forall (λ p : Post, p.2 = PAUSE_GAME false) (pause_step st ev).2)
    as (Hst1 & Hrun1 & Hout1).
  { unfold pending_false in *.
    destruct ev as [| ms | | |r]; try done; cbn [pause_step].
    - split_and!; [|done|by constructor]. simpl. by destruct (timer st).
    - destruct (timer st) as [t|] eqn:Ht;
        [|simpl; rewrite Ht; by split_and!; [..|constructor]].
      case_bool_decide; [|simpl; rewrite Ht; by split_and!; [..|constructor]].
      split_and!; [done..|]. simpl.
      destruct (syncGameState_payload (timer_showModal t) (timer_showRemix t)
                  (iframeRef st)) as [Hsync _].
      by rewrite Hst in Hsync.
    - split_and!; [done..|]. simpl.
      destruct (syncGameState_payload (showModal st) (showRemix st) (iframeRef st))
        as [Hsync _].
      by rewrite Hrun in Hsync. }
  cbn [pause_run]. destruct (pause_step st ev) as [st1 out1]. simpl in *.
  specialize (IH st1 Hst1 Hrun1 Hevs).
  destruct (pause_run evs st1) as [st2 out2]. simpl in *. by apply Forall_app.
Qed.

(** Once the pending timer, if any, carries [false], waiting can post
    [PAUSE_GAME false] only, and at most once. *)
Lemma wait_posts_final (evs : list PauseEvent) (st : PauseState) :
  pending_false st → forallb is_wait evs = true →
  Forall (λ p : Post, p.2 = PAUSE_GAME false) (pause_run evs st).2
  ∧ length (pause_run evs st).2 ≤ pending st.
Proof.
  revert st. induction evs as [|ev evs IH]; intros st Hst Hevs.
  - simpl. split; [done|lia].
  - simpl in Hevs. apply andb_prop in Hevs as [Hev Hevs].
    unfold pending_false, pending in *.
    destruct ev as [| ms | | |]; try done; cbn [pause_run pause_step].
    + match goal with |- context [pause_run evs ?s] => specialize (IH s) end.
      destruct (timer st) as [t|]; simpl in *;
        destruct (IH Hst Hevs) as [Hall Hlen];
        destruct (pause_run evs _) as [st2 out2]; done.
    + destruct (timer st) as [t|] eqn:Ht.
      * case_bool_decide.
        -- match goal with |- context [pause_run evs ?s] => specialize (IH s) end.
           destruct (IH I Hevs) as [Hall Hlen].
           destruct (pause_run evs _) as [st2 out2]. simpl in *.
           destruct (syncGameState_payload (timer_showModal t) (timer_showRemix t)
                       (iframeRef st)) as [Hsync Hone].
           rewrite Hst in Hsync. split.
           ++ by apply Forall_app.
           ++ rewrite length_app. lia.
        -- specialize (IH st). rewrite Ht in IH.
           destruct (IH Hst Hevs) as [Hall Hlen].
           destruct (pause_run evs st) as [st2 out2]. done.
      * specialize (IH st). rewrite Ht in IH.
        destruct (IH I Hevs) as [Hall Hlen].
        destruct (pause_run evs st) as [st2 out2]. done.
Qed.

Lemma pause_run_app (evs1 evs2 : list PauseEvent) (st : PauseState) :
  pause_run (evs1 ++ evs2) st
  = ((pause_run evs2 (pause_run evs1 st).1).1,
     (pause_run evs1 st).2 ++ (pause_run evs2 (pause_run evs1 st).1).2).
Proof.
  revert st. induction evs1 as [|ev evs1 IH]; intros st; simpl.
  - by destruct (pause_run evs2 st).
  - destruct (pause_step st ev) as [st1 out1]. rewrite IH.
    destruct (pause_run evs1 st1) as [st2 out2]. simpl.
    destruct (pause_run evs2 st2) as [st3 out3]. simpl. by rewrite app_assoc.
Qed.

(** C9, as stated, fails: the remix menu is opened and closed again
    within 70 ms, and the iframe fires its [load] event in between; its
    [onLoad] handler posts the pause value of that moment, [true], at once,
    so the guest observes the stale value before the final one. *)
Lemma stale_pause_on_iframe_load :
  waited [Elapse 40; IframeLoad; Elapse 30] < delay
  ∧ (pause_run [SetUI false true; Elapse 40; IframeLoad; Elapse 30; SetUI false false;
                Elapse 100; TimerFires] runningState).2
    = [({| windowId := 1 |}, PAUSE_GAME true); ({| windowId := 1 |}, PAUSE_GAME false)]
  ∧ ¬ Forall (λ p : Post, p.2 = PAUSE_GAME false)
        (pause_run [SetUI false true; Elapse 40; IframeLoad; Elapse 30; SetUI false false;
                    Elapse 100; TimerFires] runningState).2.
Proof.
  split; [unfold delay; simpl; lia|]. split; [reflexivity|].
  intros Hall. apply Forall_cons in Hall as [Hhead _]. discriminate Hhead.
Qed.

(** C9, amended. A state change that pauses the game, followed by one
    that resumes it before the delay of the first has elapsed, with no
    [load] event of the iframe and no other change in between (time may
    pass, the stale timer may be looked at, the iframe may be remounted):
    whatever happens afterwards short of a further change, the guest is
    sent nothing but [PAUSE_GAME false]; at most once if only time passes;
    and exactly once, once the delay has elapsed and the timer has run, to
    the window the iframe has then. *)
Theorem pause_debounce (st : PauseState) (modal remix : bool) (mid post : list PauseEvent) :
  Bool.eqb modal (showModal st) && Bool.eqb remix (showRemix st) = false →
  modal || remix = true →
  forallb is_quiet mid = true → waited mid < delay →
  forallb (λ ev, negb (is_change ev)) post = true →
  Forall (λ p : Post, p.2 = PAUSE_GAME false)
    (pause_run (SetUI modal remix :: mid ++ SetUI false false :: post) st).2
  ∧ (forallb is_wait post = true →
     length (pause_run (SetUI modal remix :: mid ++ SetUI false false :: post) st).2 ≤ 1)
  ∧ (∀ w ms,
       guestWindow (iframeRef (pause_run (SetUI modal remix :: mid) st).1) = Some w →
       delay ≤ ms →
       (pause_run (SetUI modal remix :: mid ++ [SetUI false false; Elapse ms; TimerFires])
          st).2 = [(w, PAUSE_GAME false)]).
Proof.
  intros Hchange Hpaused Hmid Hdue Hpost.
  set (st1 := {| showModal := modal; showRemix := remix; iframeRef := iframeRef st;
                 timer := Some {| elapsed := 0; timer_showModal := modal;
                                  timer_showRemix := remix |} |}).
  assert (∀ evs, pause_run (SetUI modal remix :: evs) st = pause_run evs st1) as Hfirst.
  { intros evs. cbn [pause_run pause_step]. rewrite Hchange.
    unfold st1. by destruct (pause_run evs _). }
  destruct (quiet_before_due mid st1 _ eq_refl Hmid Hdue) as [Hout Hst].
  set (ref := iframeRef (pause_run mid st1).1) in *.
  set (st3 := {| showModal := false; showRemix := false; iframeRef := ref;
                 timer := Some {| elapsed := 0; timer_showModal := false;
                                  timer_showRemix := false |} |}).
  assert (∀ evs, (pause_run (SetUI modal remix :: mid ++ SetUI false false :: evs) st).2
                 = (pause_run evs st3).2) as Hsecond.
  { intros evs. rewrite Hfirst, pause_run_app, Hout, Hst. unfold st1, st3.
    cbn [fst snd app pause_run pause_step showModal showRemix iframeRef].
    assert (Bool.eqb false modal && Bool.eqb false remix = false) as ->
      by (by destruct modal, remix).
    by destruct (pause_run evs _). }
  split_and!.
  - rewrite Hsecond. by apply (running_posts_final post st3).
  - intros Hwait. rewrite Hsecond. by apply (wait_posts_final post st3).
  - intros w ms Hw Hms. rewrite Hfirst in Hw. fold ref in Hw.
    rewrite Hsecond. cbn [pause_run pause_step st3 timer fmap
      option_fmap option_map elapsed timer_showModal timer_showRemix iframeRef
      showModal showRemix].
    rewrite bool_decide_eq_true_2 by (simpl; lia).
    unfold syncGameState, postIfPresent. simpl. by rewrite Hw.
Qed.

End PauseDebounce.

(** The remix menu is opened and closed again after 70 ms, the iframe
    being remounted in between; the timer of the second change runs
    100 ms later. *)
Lemma pause_debounce_witness :
  Forall (λ p : App.Post, p.2 = App.PAUSE_GAME false)
    (App.pause_run
       (App.SetUI false true
          :: [App.Elapse 40; App.TimerFires; App.SetIframe (Some sampleIframe); App.Elapse 30]
          ++ App.SetUI false false :: [App.Elapse 100; App.TimerFires; App.IframeLoad])
       runningState).2
  ∧ (App.pause_run
       (App.SetUI false true
          :: [App.Elapse 40; App.TimerFires; App.SetIframe (Some sampleIframe); App.Elapse 30]
          ++ [App.SetUI false false; App.Elapse 100; App.TimerFires])
       runningState).2
    = [({| App.windowId := 1 |}, App.PAUSE_GAME false)].
Proof.
  assert (App.waited [App.Elapse 40; App.TimerFires; App.SetIframe (Some sampleIframe);
                      App.Elapse 30] < App.delay) as Hdue
    by (unfold App.delay; simpl; lia).
  split.
  - exact (proj1 (pause_debounce runningState false true
                    [App.Elapse 40; App.TimerFires; App.SetIframe (Some sampleIframe);
                     App.Elapse 30]
                    [App.Elapse 100; App.TimerFires; App.IframeLoad]
                    eq_refl eq_refl eq_refl Hdue eq_refl)).
  - apply (proj2 (proj2 (pause_debounce runningState false true
                           [App.Elapse 40; App.TimerFires; App.SetIframe (Some sampleIframe);
                            App.Elapse 30]
                           [] eq_refl eq_refl eq_refl Hdue eq_refl))
             {| App.windowId := 1 |} 100); [reflexivity | unfold App.delay; lia].
Defined.

(** Without the second change the stale value would be posted: the
    debounce is what keeps it from the guest. *)
Lemma pause_delivered_when_due :
  (App.pause_run [App.SetUI false true; App.Elapse 100; App.TimerFires] runningState).2
  = [({| App.windowId := 1 |}, App.PAUSE_GAME true)].
Proof. reflexivity. Qed.

(** * Report generation and the bridge to the guest *)

Section ReportBridge.
Import App.

Context (service : Service).

Lemma completion_type (data : Js.val) :
  is_completion (Receive data) = true →
  ∃ type, Js.get data "type" = Js.Normal type ∧ Js.is_string type "GAME_OVER" = true.
Proof. simpl. destruct (Js.get data "type") as [type|]; [eauto|done]. Qed.

(** What [handleMessage] does with a completion message, by whether the
    [try] block reaches the [await]. *)
Lemma handleMessage_completion (iframeRef : option HTMLIFrameElement)
    (data gameData : Js.val) :
  is_completion (Receive data) = true →
  Js.get data "payload" = Js.Normal gameData →
  handleMessage service iframeRef data
  = if constructs service
    then match generateAnalysisPrompt gameData with
         | Js.Normal prompt => Await prompt
         | Js.Throw _ => Done (handleMessage_catch iframeRef)
         end
    else Done (handleMessage_catch iframeRef).
Proof.
  intros (type & Htype & Hgo)%completion_type Hpayload.
  unfold handleMessage. rewrite Htype, Hgo, Hpayload.
  by destruct (constructs service).
Qed.

Lemma handleMessage_other (iframeRef : option HTMLIFrameElement) (data : Js.val) :
  is_completion (Receive data) = false →
  handleMessage service iframeRef data = Done []
  ∨ ∃ e, handleMessage service iframeRef data = Uncaught e.
Proof.
  simpl. unfold handleMessage.
  destruct (Js.get data "type") as [type|e]; [|eauto].
  intros ->. by left.
Qed.

Lemma catch_posts (iframeRef : option HTMLIFrameElement) :
  handleMessage_catch iframeRef
  = match guestWindow iframeRef with
    | Some w => [(w, REPORT_GENERATED fallbackReport)]
    | None => []
    end.
Proof. reflexivity. Qed.

(** C3, as stated, fails: the request fails while the iframe is
    unmounted, and no report is delivered. *)
Lemma fallback_dropped_without_window :
  is_completion (Receive (gameOver sampleTelemetry)) = true
  ∧ generationFails stubService networkError sampleTelemetry
  ∧ completionCycle stubService networkError (Some sampleIframe) None
      (gameOver sampleTelemetry) = Done []
  ∧ reports (progress_out (completionCycle stubService networkError (Some sampleIframe)
                             None (gameOver sampleTelemetry))) ≠ [fallbackReport].
Proof.
  split; [reflexivity|]. split; [|split; [reflexivity|discriminate]].
  right. right. eexists. split; [reflexivity|done].
Qed.

(** C3, amended. When report generation fails for a completion message,
    the handler returns normally, having made one guarded post of the
    literal fallback report, with the iframe ref as it is when the failure
    is handled: on arrival of the message if the failure precedes the
    request (the client cannot be constructed, or building the prompt
    throws), on settlement of the request otherwise (the request is
    rejected, or the response is not JSON). The fallback, and nothing
    else, is posted to the content window the iframe has at that moment;
    if it has none, nothing is posted. *)
Theorem failure_yields_fallback (outcome : Prompt → Settlement)
    (iframeRef iframeRef' : option HTMLIFrameElement) (data gameData : Js.val) :
  is_completion (Receive data) = true →
  Js.get data "payload" = Js.Normal gameData →
  (constructs service = false ∨ (∃ e, generateAnalysisPrompt gameData = Js.Throw e) →
     completionCycle service outcome iframeRef iframeRef' data
     = Done (match guestWindow iframeRef with
             | Some w => [(w, REPORT_GENERATED fallbackReport)]
             | None => []
             end))
  ∧ (∀ prompt,
       constructs service = true →
       generateAnalysisPrompt gameData = Js.Normal prompt →
       match outcome prompt with
       | Rejected _ => True
       | Fulfilled text => text ≫= JSON_parse service = None
       end →
       completionCycle service outcome iframeRef iframeRef' data
       = Done (match guestWindow iframeRef' with
               | Some w => [(w, REPORT_GENERATED fallbackReport)]
               | None => []
               end))
  ∧ (generationFails service outcome gameData →
       (constructs service = false ∨ (∃ e, generateAnalysisPrompt gameData = Js.Throw e))
       ∨ (constructs service = true
          ∧ ∃ prompt,
              generateAnalysisPrompt gameData = Js.Normal prompt
              ∧ match outcome prompt with
                | Rejected _ => True
                | Fulfilled text => text ≫= JSON_parse service = None
                end)).
Proof.
  intros Hgo Hpayload. split_and!.
  - intros Hearly. unfold completionCycle.
    rewrite (handleMessage_completion _ _ _ Hgo Hpayload), <-catch_posts.
    destruct (constructs service) eqn:Hctor; [|done].
    destruct Hearly as [?|[e ->]]; done.
  - intros prompt Hctor Hprompt Hsettle. unfold completionCycle.
    rewrite (handleMessage_completion _ _ _ Hgo Hpayload), Hctor, Hprompt, <-catch_posts.
    unfold handleMessage_resume.
    destruct (outcome prompt) as [text|e]; [|done]. by rewrite Hsettle.
  - intros [Hctor|[Hthrow|Hlate]]; [by left; left|by left; right|].
    destruct (constructs service); [by right|by left; left].
Qed.

(** C4, as stated, fails: the service answers with valid JSON while the
    iframe is unmounted, and the cycle ends with no message sent. *)
Lemma report_lost_without_window :
  is_completion (Receive (gameOver sampleTelemetry)) = true
  ∧ completionCycle stubService (λ _, Fulfilled (Some "{}")) (Some sampleIframe) None
      (gameOver sampleTelemetry) = Done []
  ∧ length (reports (progress_out
                       (completionCycle stubService (λ _, Fulfilled (Some "{}"))
                          (Some sampleIframe) None (gameOver sampleTelemetry)))) = 0.
Proof. done. Qed.

(** C4, amended. A completion cycle whose request settles makes one
    guarded [postMessage] of a report, so it sends at most one message:
    exactly one when the iframe has a content window at the moment of
    sending, none when it has not. That moment is the arrival of the
    message if generation fails before the request (the client cannot be
    constructed, or building the prompt throws), and the settlement of the
    request otherwise. The report is the parsed response when the service
    returns text that [JSON.parse] accepts, and the fallback report in
    every other case. *)
Theorem one_report_per_cycle (outcome : Prompt → Settlement)
    (iframeRef iframeRef' : option HTMLIFrameElement) (data gameData : Js.val) :
  is_completion (Receive data) = true →
  Js.get data "payload" = Js.Normal gameData →
  (constructs service = false ∨ (∃ e, generateAnalysisPrompt gameData = Js.Throw e) →
     completionCycle service outcome iframeRef iframeRef' data
     = Done (postIfPresent iframeRef (REPORT_GENERATED fallbackReport)))
  ∧ (∀ prompt text parsed,
       constructs service = true →
       generateAnalysisPrompt gameData = Js.Normal prompt →
       outcome prompt = Fulfilled (Some text) →
       JSON_parse service text = Some parsed →
       completionCycle service outcome iframeRef iframeRef' data
       = Done (postIfPresent iframeRef' (REPORT_GENERATED parsed)))
  ∧ (∀ prompt,
       constructs service = true →
       generateAnalysisPrompt gameData = Js.Normal prompt →
       match outcome prompt with
       | Rejected _ => True
       | Fulfilled text => text ≫= JSON_parse service = None
       end →
       completionCycle service outcome iframeRef iframeRef' data
       = Done (postIfPresent iframeRef' (REPORT_GENERATED fallbackReport)))
  ∧ (∃ ref report,
       (ref = iframeRef ∨ ref = iframeRef')
       ∧ completionCycle service outcome iframeRef iframeRef' data
         = Done (postIfPresent ref (REPORT_GENERATED report))
       ∧ postIfPresent ref (REPORT_GENERATED report)
         = match guestWindow ref with
           | Some w => [(w, REPORT_GENERATED report)]
           | None => []
           end
       ∧ length (reports (postIfPresent ref (REPORT_GENERATED report)))
         = match guestWindow ref with Some _ => 1 | None => 0 end).
Proof.
  intros Hgo Hpayload.
  assert (∀ ref report,
            length (reports (postIfPresent ref (REPORT_GENERATED report)))
            = match guestWindow ref with Some _ => 1 | None => 0 end) as Hcount.
  { intros ref report. unfold postIfPresent. by destruct (guestWindow ref). }
  unfold completionCycle. rewrite (handleMessage_completion _ _ _ Hgo Hpayload).
  split_and!.
  - intros Hearly. destruct (constructs service) eqn:Hctor; [|done].
    destruct Hearly as [?|[e ->]]; done.
  - intros prompt text parsed -> -> Houtcome Hparse.
    unfold handleMessage_resume. rewrite Houtcome. simpl. by rewrite Hparse.
  - intros prompt -> -> Hsettle. unfold handleMessage_resume.
    destruct (outcome prompt) as [text|e]; [|done]. by rewrite Hsettle.
  - destruct (constructs service) eqn:Hctor;
      [destruct (generateAnalysisPrompt gameData) as [prompt|e] eqn:Hprompt;
         [unfold handleMessage_resume;
          destruct (outcome prompt) as [text|e] eqn:Houtcome;
            [destruct (text ≫= JSON_parse service) as [parsed|] eqn:Hparse|]|]|].
    + exists iframeRef', parsed. split_and!; auto.
    + exists iframeRef', fallbackReport. split_and!; auto.
    + exists iframeRef', fallbackReport. split_and!; auto.
    + exists iframeRef, fallbackReport. split_and!; auto.
    + exists iframeRef, fallbackReport. split_and!; auto.
Qed.

(** The parsed response is forwarded as it is, whatever its shape. *)
Lemma parsed_response_forwarded :
  completionCycle stubService (λ _, Fulfilled (Some "null"))
    (Some sampleIframe) (Some sampleIframe) (gameOver sampleTelemetry)
  = Done [({| windowId := 1 |}, REPORT_GENERATED Js.Null)].
Proof. reflexivity. Qed.

End ReportBridge.

Section Validation.
Import App.
Context (service : Service).

Lemma get_total (v : Js.val) (k : string) :
  Js.nullish v = false → ∃ r, Js.get v k = Js.Normal r.
Proof. destruct v; simpl; eauto; done. Qed.

Lemma index_total (v : Js.val) (i : nat) :
  Js.nullish v = false → ∃ r, Js.index v i = Js.Normal r.
Proof. destruct v; simpl; eauto; done. Qed.

Lemma get_opt_total (v : Js.val) (k : string) : ∃ r, Js.get_opt v k = Js.Normal r.
Proof. unfold Js.get_opt. destruct v; simpl; eauto. Qed.

Lemma get_defined (v r : Js.val) (k : string) :
  Js.get v k = Js.Normal r → Js.nullish v = false.
Proof. by destruct v. Qed.

Lemma metric_total (data metrics : Js.val) (m : string) :
  Js.get data "metrics" = Js.Normal metrics → Js.nullish metrics = false →
  ∃ r, metric data m = Js.Normal r.
Proof.
  intros Hm Hdef. unfold metric. rewrite Hm. simpl. by apply get_total.
Qed.

Lemma timelineEvent_total (data timeline : Js.val) (i : nat) :
  Js.get data "timeline" = Js.Normal timeline → Js.nullish timeline = false →
  ∃ r, timelineEvent data i = Js.Normal r.
Proof.
  intros Ht Hdef. unfold timelineEvent. rewrite Ht. simpl.
  destruct (index_total timeline i Hdef) as [entry ->]. simpl.
  destruct (get_opt_total entry "event") as [event ->]. simpl. eauto.
Qed.

Lemma artifactCount_total (data : Js.val) (t : string) :
  Js.nullish data = false → ∃ r, artifactCount data t = Js.Normal r.
Proof.
  intros Hdef. unfold artifactCount.
  destruct (get_total data "artifacts" Hdef) as [artifacts ->]. simpl.
  destruct (get_opt_total artifacts t) as [count ->]. simpl. eauto.
Qed.

Lemma get_TypeError (v : Js.val) (k : string) (e : Js.exn) :
  Js.get v k = Js.Throw e → e = Js.TypeError.
Proof. destruct v; simpl; congruence. Qed.

Lemma index_TypeError (v : Js.val) (i : nat) (e : Js.exn) :
  Js.index v i = Js.Throw e → e = Js.TypeError.
Proof. destruct v; simpl; congruence. Qed.

Lemma metric_TypeError (data : Js.val) (m : string) (e : Js.exn) :
  metric data m = Js.Throw e → e = Js.TypeError.
Proof.
  unfold metric. destruct (Js.get data "metrics") as [metrics|e'] eqn:Hm; simpl.
  - apply get_TypeError.
  - intros [= <-]. by eapply get_TypeError.
Qed.

Lemma timelineEvent_TypeError (data : Js.val) (i : nat) (e : Js.exn) :
  timelineEvent data i = Js.Throw e → e = Js.TypeError.
Proof.
  unfold timelineEvent.
  destruct (Js.get data "timeline") as [timeline|e'] eqn:Ht; simpl;
    [|intros [= <-]; by eapply get_TypeError].
  destruct (Js.index timeline i) as [entry|e'] eqn:Hi; simpl;
    [|intros [= <-]; by eapply index_TypeError].
  by destruct (get_opt_total entry "event") as [event ->].
Qed.

Lemma artifactCount_TypeError (data : Js.val) (t : string) (e : Js.exn) :
  artifactCount data t = Js.Throw e → e = Js.TypeError.
Proof.
  unfold artifactCount.
  destruct (Js.get data "artifacts") as [artifacts|e'] eqn:Ha; simpl;
    [|intros [= <-]; by eapply get_TypeError].
  by destruct (get_opt_total artifacts t) as [count ->].
Qed.

#[local] Ltac interpolation c :=
  let v := fresh "v" in
  let e := fresh "e" in
  let H := fresh "H" in
  let Hv := fresh "Hv" in
  destruct c as [v|e] eqn:H; cbn [mbind Js.completion_bind];
  [ change (Js.interpolate v)
      with (if Js.convertible v then Js.Normal v else Js.Throw Js.TypeError);
    destruct (Js.convertible v) eqn:Hv;
    cbn [mbind Js.completion_bind]
  | first [ apply metric_TypeError in H
          | apply timelineEvent_TypeError in H
          | apply artifactCount_TypeError in H ] ];
  [ | cbn [forallb converts andb];
      repeat match goal with Hc : Js.convertible _ = _ |- _ => rewrite Hc; clear Hc end;
      done .. ].

(** The prompt is built exactly when each of the eleven expressions has
    a value that converts to a string; otherwise a TypeError is thrown. *)
Lemma prompt_outcome (data : Js.val) :
  match generateAnalysisPrompt data with
  | Js.Normal _ => forallb converts (interpolated data) = true
  | Js.Throw e => e = Js.TypeError ∧ forallb converts (interpolated data) = false
  end.
Proof.
  unfold generateAnalysisPrompt, interpolated.
  interpolation (metric data "inst").
  interpolation (metric data "net").
  interpolation (metric data "acad").
  interpolation (metric data "hist").
  interpolation (metric data "disc").
  interpolation (timelineEvent data 0).
  interpolation (timelineEvent data 1).
  interpolation (timelineEvent data 2).
  interpolation (artifactCount data "t1").
  interpolation (artifactCount data "t2").
  interpolation (artifactCount data "t3").
  cbn [mret Js.completion_ret forallb converts andb].
  repeat match goal with Hc : Js.convertible _ = _ |- _ => rewrite Hc; clear Hc end.
  done.
Qed.

(** Reading the expressions needs of the telemetry only that its
    [metrics] and its [timeline] are neither [null] nor [undefined]. *)
Lemma interpolated_normal (gameData metrics timeline : Js.val) (c : Js.completion Js.val) :
  Js.get gameData "metrics" = Js.Normal metrics → Js.nullish metrics = false →
  Js.get gameData "timeline" = Js.Normal timeline → Js.nullish timeline = false →
  c ∈ interpolated gameData → ∃ v, c = Js.Normal v.
Proof.
  intros Hm Hmdef Ht Htdef Hc. pose proof (get_defined _ _ _ Hm) as Hdef.
  unfold interpolated in Hc.
  repeat (apply elem_of_cons in Hc as [->|Hc];
          [by eauto using metric_total, timelineEvent_total, artifactCount_total|]).
  by apply elem_of_nil in Hc.
Qed.

Lemma prompt_total (gameData metrics timeline : Js.val) :
  Js.get gameData "metrics" = Js.Normal metrics → Js.nullish metrics = false →
  Js.get gameData "timeline" = Js.Normal timeline → Js.nullish timeline = false →
  (∀ v, Js.Normal v ∈ interpolated gameData → Js.convertible v = true) →
  ∃ prompt, generateAnalysisPrompt gameData = Js.Normal prompt.
Proof.
  intros Hm Hmdef Ht Htdef Hconv.
  assert (forallb converts (interpolated gameData) = true) as Hall.
  { apply forallb_forall. intros c Hc%list_elem_of_In.
    destruct (interpolated_normal _ _ _ c Hm Hmdef Ht Htdef Hc) as [v ->].
    by apply Hconv. }
  pose proof (prompt_outcome gameData) as Hout.
  destruct (generateAnalysisPrompt gameData) as [prompt|e]; [eauto|].
  destruct Hout as [_ Hout]. congruence.
Qed.



(** Between completion cycles: with no request in flight, events other
    than completion messages deliver no report. *)
Lemma host_quiet (evs : list HostEvent) (st : Host) :
  inflight st = [] → forallb (λ ev, negb (is_completion ev)) evs = true →
  reports (host_run service evs st).2 = [].
Proof.
  revert st. induction evs as [|ev evs IH]; intros st Hidle Hevs; [done|].
  simpl in Hevs. apply andb_prop in Hevs as [Hev Hevs]. apply negb_true_iff in Hev.
  assert (inflight (host_step service st ev).1 = []
          ∧ reports (host_step service st ev).2 = []) as [Hidle1 Hout1].
  { destruct ev as [data|i s|r|x a]; cbn [host_step].
    - destruct (handleMessage_other service (host_iframeRef st) data Hev) as [->|[e ->]];
        done.
    - rewrite Hidle. by destruct i.
    - done.
    - split; [done|]. unfold handleHandInput, postIfPresent.
      by destruct (guestWindow (host_iframeRef st)). }
  cbn [host_run]. destruct (host_step service st ev) as [st1 out1]. simpl in *.
  specialize (IH st1 Hidle1 Hevs).
  destruct (host_run service evs st1) as [st2 out2]. simpl in *.
  unfold reports in *. by rewrite omap_app, Hout1, IH.
Qed.

(** C10. While the iframe has no content window, an input update and a
    report (parsed or fallback) are dropped: the handler returns normally
    without posting, nothing is kept for later, and whatever happens
    afterwards short of another completion message (the iframe coming
    back, hand input) delivers no report for that cycle. *)
Theorem absent_window_drops (iframeRef : option HTMLIFrameElement) :
  guestWindow iframeRef = None →
  (∀ x isActive, handleHandInput iframeRef x isActive = [])
  ∧ (∀ s, handleMessage_resume service iframeRef s = Done [])
  ∧ handleMessage_catch iframeRef = []
  ∧ (∀ prompt s evs,
       forallb (λ ev, negb (is_completion ev)) evs = true →
       host_step service {| host_iframeRef := iframeRef; inflight := [prompt] |} (Settle 0 s)
       = ({| host_iframeRef := iframeRef; inflight := [] |}, [])
       ∧ reports (host_run service (Settle 0 s :: evs)
                    {| host_iframeRef := iframeRef; inflight := [prompt] |}).2 = []).
Proof.
  intros Habsent.
  assert (∀ msg, postIfPresent iframeRef msg = []) as Hdrop
    by (intros msg; unfold postIfPresent; by rewrite Habsent).
  assert (∀ s, handleMessage_resume service iframeRef s = Done []) as Hresume.
  { intros s. unfold handleMessage_resume, handleMessage_catch.
    destruct s as [text|e]; [|by rewrite Hdrop].
    destruct (text ≫= JSON_parse service); by rewrite Hdrop. }
  split; [intros x a; apply Hdrop|]. split; [done|]. split; [apply Hdrop|].
  intros prompt s evs Hevs.
  assert (host_step service {| host_iframeRef := iframeRef; inflight := [prompt] |}
            (Settle 0 s)
          = ({| host_iframeRef := iframeRef; inflight := [] |}, [])) as Hstep.
  { cbn [host_step inflight host_iframeRef lookup list_lookup]. by rewrite Hresume. }
  split; [done|].
  cbn [host_run]. rewrite Hstep.
  pose proof (host_quiet evs {| host_iframeRef := iframeRef; inflight := [] |} eq_refl Hevs)
    as Hquiet.
  by destruct (host_run service evs _).
Qed.

End Validation.

(** A completion message without a payload, while the iframe is mounted
    and gone by the time the request would have settled: the fallback is
    posted on arrival. A request that fails on the network, the iframe
    mounted by then: the fallback is posted on settlement. *)
Lemma failure_yields_fallback_witness :
  (App.is_completion (App.Receive (Js.Obj [("type", Js.Str "GAME_OVER")])) = true
   ∧ App.completionCycle stubService networkError (Some sampleIframe) None
       (Js.Obj [("type", Js.Str "GAME_OVER")])
     = App.Done [({| App.windowId := 1 |}, App.REPORT_GENERATED App.fallbackReport)])
  ∧ (App.is_completion (App.Receive (gameOver sampleTelemetry)) = true
     ∧ App.completionCycle stubService networkError None (Some sampleIframe)
         (gameOver sampleTelemetry)
       = App.Done [({| App.windowId := 1 |}, App.REPORT_GENERATED App.fallbackReport)]).
Proof.
  split; (split; [reflexivity|]).
  - apply (proj1 (failure_yields_fallback stubService networkError (Some sampleIframe) None
                    (Js.Obj [("type", Js.Str "GAME_OVER")]) Js.Undefined
                    eq_refl eq_refl)).
    right. by eexists.
  - eapply (proj1 (proj2 (failure_yields_fallback stubService networkError None
                            (Some sampleIframe) (gameOver sampleTelemetry) sampleTelemetry
                            eq_refl eq_refl)));
      [reflexivity | reflexivity | exact I].
Defined.

(** The service answers [{}] while the iframe, unmounted on arrival, is
    mounted again: the parsed report goes to the window it has then. A
    payload that cannot be interpolated: the fallback goes to the window
    of the arrival. *)
Lemma one_report_per_cycle_witness :
  App.is_completion (App.Receive (gameOver sampleTelemetry)) = true
  ∧ App.completionCycle stubService (λ _, App.Fulfilled (Some "{}"))
      None (Some sampleIframe) (gameOver sampleTelemetry)
    = App.Done [({| App.windowId := 1 |}, App.REPORT_GENERATED (Js.Obj []))]
  ∧ App.completionCycle stubService (λ _, App.Fulfilled (Some "{}"))
      (Some sampleIframe) None (gameOver opaqueTelemetry)
    = App.Done [({| App.windowId := 1 |}, App.REPORT_GENERATED App.fallbackReport)].
Proof.
  split; [reflexivity|]. split.
  - eapply (proj1 (proj2 (one_report_per_cycle stubService
                            (λ _, App.Fulfilled (Some "{}")) None (Some sampleIframe)
                            (gameOver sampleTelemetry) sampleTelemetry eq_refl eq_refl)));
      reflexivity.
  - apply (proj1 (one_report_per_cycle stubService (λ _, App.Fulfilled (Some "{}"))
                    (Some sampleIframe) None (gameOver opaqueTelemetry) opaqueTelemetry
                    eq_refl eq_refl)).
    right. by eexists.
Defined.


Lemma absent_window_drops_witness :
  App.guestWindow (Some {| App.contentWindow := None |}) = None
  ∧ App.handleHandInput (Some {| App.contentWindow := None |}) 0.5%float true = []
  ∧ App.handleMessage_resume stubService (Some {| App.contentWindow := None |})
      (App.Fulfilled (Some "{}")) = App.Done [].
Proof.
  pose proof (absent_window_drops stubService (Some {| App.contentWindow := None |})
                eq_refl) as (Hinput & Hresume & _).
  split; [reflexivity|]. split; [apply Hinput | apply Hresume].
Defined.

(** * More on the per-frame callback *)

Section FrameCallback.
Import HandController.

Lemma countEffect_app (p : Effect → bool) (es1 es2 : list Effect) :
  countEffect p (es1 ++ es2) = countEffect p es1 + countEffect p es2.
Proof. unfold countEffect. by rewrite List.filter_app, length_app. Qed.

(** The shape of what lines 150-179 do. *)
Lemma onResults_landmarks_cases (active : bool) (canvas : Canvas) (window : Window)
    (results : Results) :
  (∃ landmarks others lm9,
      multiHandLandmarks results = Some (Some landmarks :: others)
      ∧ landmarks !! 9 = Some (Some lm9)
      ∧ onResults_landmarks active canvas window results
        = [OnInput ((1 - Landmark.x lm9 - 0.5) * 2)%float true]
          ++ when (drawConnectors window && HAND_CONNECTIONS window) DrawConnectors
          ++ when (drawLandmarks window) DrawLandmarks
          ++ [FillCursor ((1 - Landmark.x lm9) * width canvas)%float
                         (Landmark.y lm9 * height canvas)%float])
  ∨ onResults_landmarks active canvas window results = []
  ∨ onResults_landmarks active canvas window results
    = [OnInput 0%float false] ++ when active FillSearching
  ∨ ((∃ others, multiHandLandmarks results = Some (None :: others))
     ∧ onResults_landmarks active canvas window results = [ThrowTypeError]).
Proof.
  unfold onResults_landmarks.
  destruct (multiHandLandmarks results) as [[|[landmarks|] others]|];
    [by right; right; left| |right; right; right; eauto|by right; right; left].
  destruct (landmarks !! 9) as [[lm9|]|] eqn:Hlm; [|by right; left..].
  left. by exists landmarks, others, lm9.
Qed.

(** X1. A call of [onResults] calls [onInput] at most once; an inactive
    signal always carries x = 0, and an active one is always computed from
    landmark 9 of the first detected hand. *)
Theorem onResults_signal_wellformed (active : bool) (canvasRef : option Canvas)
    (window : Window) (results : Results) :
  length (inputs (onResults active canvasRef window results)) ≤ 1
  ∧ (∀ x, (x, false) ∈ inputs (onResults active canvasRef window results) → x = 0%float)
  ∧ (∀ x, (x, true) ∈ inputs (onResults active canvasRef window results) →
       ∃ landmarks others lm9,
         multiHandLandmarks results = Some (Some landmarks :: others)
         ∧ landmarks !! 9 = Some (Some lm9)
         ∧ x = ((1 - Landmark.x lm9 - 0.5) * 2)%float).
Proof.
  destruct canvasRef as [canvas|]; [|by split_and!; [simpl; lia|intros x Hx; inversion Hx..]].
  destruct (context2d canvas) eqn:Hctx;
    [|rewrite (onResults_no_context _ _ _ _ Hctx);
      by split_and!; [simpl; lia|intros x Hx; inversion Hx..]].
  rewrite (onResults_inputs _ _ _ _ Hctx).
  destruct (onResults_landmarks_cases active canvas window results)
    as [(landmarks & others & lm9 & Hres & Hlm & ->)|[->|[->|[_ ->]]]];
    rewrite ?inputs_app, ?inputs_when by done; simpl.
  - split_and!; [lia| |].
    + intros x Hx%list_elem_of_singleton. congruence.
    + intros x Hx%list_elem_of_singleton. exists landmarks, others, lm9.
      split_and!; [done..|congruence].
  - split_and!; [lia|intros x Hx; inversion Hx..].
  - split_and!; [lia| |].
    + intros x Hx%list_elem_of_singleton. congruence.
    + intros x Hx%list_elem_of_singleton. congruence.
  - split_and!; [lia|intros x Hx; inversion Hx..].
Qed.


Lemma onResults_draws_only (p : Effect → bool) (active : bool)
    (canvasRef : option Canvas) (window : Window) (results : Results) :
  p Save = false → p ClearRect = false → p StrokeGrid = false →
  (∀ x a, p (OnInput x a) = false) → p DrawConnectors = false →
  p DrawLandmarks = false → (∀ cx cy, p (FillCursor cx cy) = false) →
  p FillSearching = false → p Restore = false → p ThrowTypeError = false →
  countEffect p (onResults active canvasRef window results) = 0.
Proof.
  intros H1 H2 H3 H4 H5 H6 H7 H8 H9 H10.
  destruct canvasRef as [canvas|]; [|done].
  destruct (context2d canvas) eqn:Hctx;
    [|by rewrite (onResults_no_context _ _ _ _ Hctx)].
  unfold onResults. rewrite Hctx. cbn [negb].
  destruct (onResults_landmarks_cases active canvas window results)
    as [(landmarks & others & lm9 & _ & _ & ->)|[->|[->|[_ ->]]]];
    destruct active, (drawConnectors window), (HAND_CONNECTIONS window),
      (drawLandmarks window);
    unfold countEffect; simpl;
    by rewrite ?H1, ?H2, ?H3, ?H4, ?H5, ?H6, ?H7, ?H8, ?H9, ?H10.
Qed.

(** A detection whose first entry is [null]: the canvas is cleared, the
    grid drawn, and the callback throws. *)
Example onResults_null_hand :
  onResults true (Some sampleCanvas) sampleWindow
    {| multiHandLandmarks := Some [None] |}
  = [Save; ClearRect; StrokeGrid; ThrowTypeError].
Proof. reflexivity. Qed.

End FrameCallback.

(** * More on the lifecycle of the engine and the camera *)

Section DeviceLifecycle.
Import HandController.
Context (window : Window).

Definition handsBudget (st : State) : nat := if scriptsLoaded st then 0 else 1.

Definition cameraBudget (st : State) : nat :=
  match cameraRef st with Some _ => 0 | None => 1 end.

Lemma initHands_effects (st : State) :
  countEffect is_NewHands (initHands window st).2 ≤ 1
  ∧ countEffect is_CameraStart (initHands window st).2 = 0
  ∧ countEffect is_CameraStop (initHands window st).2 = 0
  ∧ countEffect is_SendImage (initHands window st).2 = 0
  ∧ scriptsLoaded (initHands window st).1 = scriptsLoaded st
  ∧ cameraRef (initHands window st).1 = cameraRef st
  ∧ videoRef (initHands window st).1 = videoRef st
  ∧ isActive (initHands window st).1 = isActive st
  ∧ (∀ h, handsRef st = Some h → handsRef (initHands window st).1 = Some h).
Proof.
  unfold initHands. destruct (handsRef st) as [h|] eqn:Hh.
  - rewrite bool_decide_eq_true_2 by eauto. rewrite orb_true_r.
    split_and!; simpl; auto with lia. congruence.
  - rewrite bool_decide_eq_false_2 by (by intros [? ?]). rewrite orb_false_r.
    destruct (scriptsLoaded st) eqn:Hloaded, (Hands window) as [[]|];
      split_and!; unfold countEffect; simpl; try lia; done.
Qed.

Lemma cameraEffect_effects (active : bool) (st : State) :
  countEffect is_NewHands (cameraEffect window active st).2 = 0
  ∧ countEffect is_SendImage (cameraEffect window active st).2 = 0
  ∧ scriptsLoaded (cameraEffect window active st).1 = scriptsLoaded st
  ∧ handsRef (cameraEffect window active st).1 = handsRef st
  ∧ videoRef (cameraEffect window active st).1 = videoRef st
  ∧ isActive (cameraEffect window active st).1 = isActive st.
Proof.
  unfold cameraEffect.
  destruct (negb (scriptsLoaded st) || negb (bool_decide (is_Some (handsRef st)))
            || negb (videoRef st)); [done|].
  destruct active.
  - by destruct (cameraRef st), (Camera window) as [[]|].
  - by destruct (cameraRef st) as [[[]]|].
Qed.

(** When the video element is mounted exactly if [isActive] holds, the
    camera effect never reaches its stop branch with a camera to stop. *)
Lemma cameraEffect_coherent (active : bool) (st : State) :
  videoRef st = active →
  countEffect is_CameraStop (cameraEffect window active st).2 = 0
  ∧ countEffect is_CameraStart (cameraEffect window active st).2
    + cameraBudget (cameraEffect window active st).1 ≤ cameraBudget st
  ∧ (∀ camera, cameraRef st = Some camera →
       cameraRef (cameraEffect window active st).1 = Some camera).
Proof.
  intros Hvideo. unfold cameraEffect, cameraBudget. rewrite Hvideo.
  destruct active; [|rewrite orb_true_r];
    try destruct (negb (scriptsLoaded st) || negb (bool_decide (is_Some (handsRef st)))
                  || negb true);
    destruct (cameraRef st) as [held|] eqn:Hheld;
    try destruct (Camera window) as [[]|];
    simpl; rewrite ?Hheld; split_and!; unfold countEffect; simpl;
    first [lia | done | intros; congruence].
Qed.

Lemma step_hands (st : State) (ev : Event) :
  countEffect is_NewHands (step window st ev).2 + handsBudget (step window st ev).1
  ≤ handsBudget st
  ∧ (∀ h, handsRef st = Some h → handsRef (step window st ev).1 = Some h).
Proof.
  unfold handsBudget. destruct ev as [active fresh| | |results]; cbn [step].
  - destruct (Bool.eqb active (isActive st)); [by split; [simpl; lia|]|].
    destruct (cameraEffect_effects active (commit active fresh st))
      as (-> & _ & -> & -> & _). by split; [simpl; lia|].
  - destruct (scriptsLoaded st) eqn:Hloaded;
      [simpl; rewrite Hloaded; by split; [simpl; lia|]|].
    pose proof (initHands_effects (set_scriptsLoaded true st))
      as (Hn & _ & _ & _ & Hl & _ & _ & _ & Hkeep).
    destruct (initHands window (set_scriptsLoaded true st)) as [st2 out2].
    pose proof (cameraEffect_effects (isActive st2) st2) as (Hc & _ & Hl' & Hh' & _).
    destruct (cameraEffect window (isActive st2) st2) as [st3 out3]. simpl in *.
    rewrite countEffect_app, Hc, Hl', Hl. split; [lia|].
    intros h Hh. rewrite Hh'. by apply Hkeep.
  - split; [|done]. simpl. destruct (cameraRef st); [|simpl; lia].
    unfold onFrame.
    destruct (videoRef st && bool_decide (is_Some (handsRef st)));
      unfold countEffect; simpl; lia.
  - split; [|done]. simpl. destruct (handsRef st); [|simpl; lia].
    rewrite onResults_draws_only by done. lia.
Qed.

(** X3. Over any sequence of renders, script-load notifications, camera
    frames and engine results, from any state, the engine instance is
    created at most once, never once the scripts are flagged as loaded,
    and an instance that exists is kept as it is. *)
Theorem hands_created_once (evs : list Event) (st : State) :
  countEffect is_NewHands (run window evs st).2 ≤ 1
  ∧ (scriptsLoaded st = true → countEffect is_NewHands (run window evs st).2 = 0)
  ∧ (∀ h, handsRef st = Some h → handsRef (run window evs st).1 = Some h).
Proof.
  assert (countEffect is_NewHands (run window evs st).2
          + handsBudget (run window evs st).1 ≤ handsBudget st
          ∧ (∀ h, handsRef st = Some h → handsRef (run window evs st).1 = Some h))
    as [Hbudget Hkeep].
  { revert st. induction evs as [|ev evs IH]; intros st; [by split; [simpl; lia|]|].
    cbn [run]. destruct (step_hands st ev) as [Hstep Hkeep].
    destruct (step window st ev) as [st1 out1]. destruct (IH st1) as [Hrun Hkeep'].
    destruct (run window evs st1) as [st2 out2]. simpl in *.
    rewrite countEffect_app. split; [lia|]. intros h Hh. by apply Hkeep', Hkeep. }
  unfold handsBudget in Hbudget at 2.
  split_and!; [destruct (scriptsLoaded st); lia| |done].
  intros Hloaded. rewrite Hloaded in Hbudget. lia.
Qed.

Lemma step_camera (st : State) (ev : Event) :
  coherent st →
  coherent (step window st ev).1
  ∧ countEffect is_CameraStop (step window st ev).2 = 0
  ∧ countEffect is_CameraStart (step window st ev).2 + cameraBudget (step window st ev).1
    ≤ cameraBudget st
  ∧ (∀ camera, cameraRef st = Some camera →
       cameraRef (step window st ev).1 = Some camera).
Proof.
  unfold coherent. intros Hco. destruct ev as [active fresh| | |results]; cbn [step].
  - destruct (Bool.eqb active (isActive st)); [by split_and!; [|simpl..|]; auto with lia|].
    pose proof (cameraEffect_coherent active (commit active fresh st) eq_refl)
      as (Hstop & Hstart & Hkeep).
    pose proof (cameraEffect_effects active (commit active fresh st))
      as (_ & _ & _ & _ & Hv & Ha).
    split_and!; [by rewrite Hv, Ha|done|done|done].
  - destruct (scriptsLoaded st); [by split_and!; [|simpl..|]; auto with lia|].
    pose proof (initHands_effects (set_scriptsLoaded true st))
      as (_ & Hstart2 & Hstop2 & _ & _ & Hcam2 & Hv2 & Ha2 & _).
    destruct (initHands window (set_scriptsLoaded true st)) as [st2 out2].
    simpl in Hstart2, Hstop2, Hcam2, Hv2, Ha2.
    assert (videoRef st2 = isActive st2) as Hco2 by congruence.
    pose proof (cameraEffect_coherent (isActive st2) st2 Hco2) as (Hstop & Hstart & Hkeep).
    pose proof (cameraEffect_effects (isActive st2) st2) as (_ & _ & _ & _ & Hv & Ha).
    destruct (cameraEffect window (isActive st2) st2) as [st3 out3]. simpl in *.
    rewrite !countEffect_app, Hstop, Hstop2, Hstart2.
    assert (cameraBudget st2 = cameraBudget st) as Hb
      by (unfold cameraBudget; by rewrite Hcam2).
    split_and!; [congruence|done|lia|].
    intros camera Hc. apply Hkeep. by rewrite Hcam2.
  - unfold onFrame.
    split_and!; [done| | |done];
      destruct (cameraRef st),
        (videoRef st && bool_decide (is_Some (handsRef st)));
      unfold countEffect; simpl; lia.
  - split_and!; [done| | |done]; destruct (handsRef st); simpl; auto with lia;
      rewrite onResults_draws_only by done; lia.
Qed.

Lemma mount_coherent (active : bool) (fresh : Canvas) : coherent (mount active fresh).
Proof. reflexivity. Qed.

Lemma run_camera (evs : list Event) (st : State) :
  coherent st →
  coherent (run window evs st).1
  ∧ countEffect is_CameraStop (run window evs st).2 = 0
  ∧ countEffect is_CameraStart (run window evs st).2 + cameraBudget (run window evs st).1
    ≤ cameraBudget st
  ∧ (∀ camera, cameraRef st = Some camera →
       cameraRef (run window evs st).1 = Some camera).
Proof.
  revert st. induction evs as [|ev evs IH]; intros st Hco.
  - split_and!; simpl; auto with lia.
  - cbn [run]. destruct (step_camera st ev Hco) as (Hco1 & Hstop & Hstart & Hkeep).
    destruct (step window st ev) as [st1 out1].
    destruct (IH st1 Hco1) as (Hco' & Hstop' & Hstart' & Hkeep').
    destruct (run window evs st1) as [st2 out2]. simpl in *.
    rewrite !countEffect_app. split_and!; [done|lia|lia|].
    intros camera Hc. by apply Hkeep', Hkeep.
Qed.

(** X4. From the first render on (more generally, from any state whose
    video ref agrees with the last render), no sequence of renders,
    script-load notifications, frames and results ever stops the camera:
    the render that deactivates the session unmounts the video element,
    and the camera effect returns at its first test. The camera is started
    at most once, and not at all when one is held; a camera that is held
    stays in [cameraRef]. *)
Theorem camera_acquired_once_never_stopped (evs : list Event) (st : State) :
  coherent st →
  countEffect is_CameraStop (run window evs st).2 = 0
  ∧ countEffect is_CameraStart (run window evs st).2 ≤ 1
  ∧ (∀ camera, cameraRef st = Some camera →
       countEffect is_CameraStart (run window evs st).2 = 0
       ∧ cameraRef (run window evs st).1 = Some camera).
Proof.
  intros Hco. destruct (run_camera evs st Hco) as (_ & Hstop & Hstart & Hkeep).
  unfold cameraBudget in Hstart at 2.
  split_and!; [done|destruct (cameraRef st); lia|].
  intros camera Hcam. rewrite Hcam in Hstart. split; [lia|by apply Hkeep].
Qed.

(** X5. The unmount cleanup is where a held camera is released: after any
    such sequence, it stops a camera that has a [stop] function once and
    clears the ref, and running it again does nothing. *)
Theorem cleanup_releases_camera (evs : list Event) (st : State) :
  coherent st →
  (∀ camera, cameraRef (run window evs st).1 = Some camera → hasStop camera = true →
     countEffect is_CameraStop
       ((run window evs st).2 ++ (cleanup (run window evs st).1).2) = 1
     ∧ cameraRef (cleanup (run window evs st).1).1 = None)
  ∧ cleanup (cleanup (run window evs st).1).1 = ((cleanup (run window evs st).1).1, []).
Proof.
  intros Hco.
  destruct (run_camera evs st Hco) as (_ & Hstop & _).
  split.
  - intros camera Hcam Hstoppable. rewrite countEffect_app, Hstop.
    unfold cleanup. by rewrite Hcam, Hstoppable.
  - unfold cleanup. destruct (cameraRef (run window evs st).1) as [[[]]|] eqn:Hcam;
      simpl; by rewrite ?Hcam.
Qed.

End DeviceLifecycle.

Section EngineFeed.
Import HandController.
Context (window : Window).

Lemma step_video_unmounted (st : State) (ev : Event) :
  videoRef st = false → activation ev = false →
  videoRef (step window st ev).1 = false
  ∧ countEffect is_SendImage (step window st ev).2 = 0.
Proof.
  intros Hvideo Hev. destruct ev as [[] fresh| | |results]; try done; cbn [step].
  - destruct (Bool.eqb false (isActive st)); [done|].
    by destruct (cameraEffect_effects window false (commit false fresh st))
      as (_ & -> & _ & _ & -> & _).
  - destruct (scriptsLoaded st); [done|].
    pose proof (initHands_effects window (set_scriptsLoaded true st))
      as (_ & _ & _ & Hsend2 & _ & _ & Hv2 & _).
    destruct (initHands window (set_scriptsLoaded true st)) as [st2 out2].
    pose proof (cameraEffect_effects window (isActive st2) st2)
      as (_ & Hsend3 & _ & _ & Hv3 & _).
    destruct (cameraEffect window (isActive st2) st2) as [st3 out3]. simpl in *.
    rewrite countEffect_app, Hsend2, Hsend3. split; [congruence|done].
  - split; [done|]. simpl. unfold onFrame. rewrite Hvideo. by destruct (cameraRef st).
  - split; [done|]. simpl. destruct (handsRef st); [|done].
    by apply onResults_draws_only.
Qed.

(** X6. Once the session is deactivated, no image is sent to the engine
    before the next activation, although the camera keeps calling
    [onFrame]: the video element [onFrame] would send is unmounted. *)
Theorem no_frame_sent_after_deactivation (st : State) (fresh : Canvas)
    (evs : list Event) :
  forallb (λ ev, negb (activation ev)) evs = true →
  countEffect is_SendImage (run window (Render false fresh :: evs) st).2 = 0.
Proof.
  intros Hevs.
  assert (∀ evs st, videoRef st = false →
            forallb (λ ev, negb (activation ev)) evs = true →
            countEffect is_SendImage (run window evs st).2 = 0) as Hrun.
  { clear st evs Hevs. intros evs.
    induction evs as [|ev evs IH]; intros st Hvideo Hevs; [done|].
    simpl in Hevs. apply andb_prop in Hevs as [Hev Hevs]. apply negb_true_iff in Hev.
    destruct (step_video_unmounted st ev Hvideo Hev) as [Hvideo1 Hsend].
    cbn [run]. destruct (step window st ev) as [st1 out1].
    specialize (IH st1 Hvideo1 Hevs). destruct (run window evs st1) as [st2 out2].
    simpl in *. by rewrite countEffect_app, Hsend, IH. }
  assert (videoRef (step window st (Render false fresh)).1 = false
          ∧ countEffect is_SendImage (step window st (Render false fresh)).2 = 0)
    as [Hvideo Hsend].
  { cbn [step]. destruct (Bool.eqb false (isActive st)); [done|].
    by destruct (cameraEffect_effects window false (commit false fresh st))
      as (_ & -> & _ & _ & -> & _). }
  cbn [run]. destruct (step window st (Render false fresh)) as [st1 out1].
  specialize (Hrun evs st1 Hvideo Hevs). destruct (run window evs st1) as [st2 out2].
  simpl in *. by rewrite countEffect_app, Hsend, Hrun.
Qed.

End EngineFeed.

(** An activation cycle after the scripts have loaded: one camera start,
    no stop. *)
Lemma camera_acquired_once_never_stopped_witness :
  coherent (HandController.mount false sampleCanvas)
  ∧ countEffect is_CameraStop
      (HandController.run sampleWindow
         [HandController.SetScriptsLoaded; HandController.Render true sampleCanvas;
          HandController.Render false sampleCanvas;
          HandController.Render true sampleCanvas]
         (HandController.mount false sampleCanvas)).2 = 0
  ∧ countEffect is_CameraStart
      (HandController.run sampleWindow
         [HandController.SetScriptsLoaded; HandController.Render true sampleCanvas;
          HandController.Render false sampleCanvas;
          HandController.Render true sampleCanvas]
         (HandController.mount false sampleCanvas)).2 ≤ 1.
Proof.
  split; [reflexivity|].
  destruct (camera_acquired_once_never_stopped sampleWindow
              [HandController.SetScriptsLoaded; HandController.Render true sampleCanvas;
               HandController.Render false sampleCanvas;
               HandController.Render true sampleCanvas]
              (HandController.mount false sampleCanvas) eq_refl) as (Hstop & Hstart & _).
  split; [exact Hstop | exact Hstart].
Defined.

Lemma cleanup_releases_camera_witness :
  coherent (HandController.mount false sampleCanvas)
  ∧ HandController.cameraRef
      (HandController.run sampleWindow
         [HandController.SetScriptsLoaded; HandController.Render true sampleCanvas;
          HandController.Render false sampleCanvas]
         (HandController.mount false sampleCanvas)).1
    = Some {| HandController.hasStop := true |}
  ∧ countEffect is_CameraStop
      ((HandController.run sampleWindow
          [HandController.SetScriptsLoaded; HandController.Render true sampleCanvas;
           HandController.Render false sampleCanvas]
          (HandController.mount false sampleCanvas)).2
       ++ (cleanup
             (HandController.run sampleWindow
                [HandController.SetScriptsLoaded; HandController.Render true sampleCanvas;
                 HandController.Render false sampleCanvas]
                (HandController.mount false sampleCanvas)).1).2) = 1.
Proof.
  split; [reflexivity|]. split; [reflexivity|].
  apply (proj1 (cleanup_releases_camera sampleWindow
                  [HandController.SetScriptsLoaded;
                   HandController.Render true sampleCanvas;
                   HandController.Render false sampleCanvas]
                  (HandController.mount false sampleCanvas) eq_refl)
           {| HandController.hasStop := true |}); reflexivity.
Defined.

Lemma no_frame_sent_after_deactivation_witness :
  countEffect is_SendImage
    (HandController.run sampleWindow
       [HandController.Render false sampleCanvas; HandController.CameraFrame;
        HandController.ResultsReady (frameOf [fullHand]); HandController.CameraFrame]
       trackingState).2 = 0.
Proof.
  apply (no_frame_sent_after_deactivation sampleWindow trackingState sampleCanvas
           [HandController.CameraFrame;
            HandController.ResultsReady (frameOf [fullHand]);
            HandController.CameraFrame]).
  reflexivity.
Defined.

(** While the session is active the same camera frame is sent on. *)
Example frame_sent_while_active :
  (HandController.run sampleWindow [HandController.CameraFrame] trackingState).2
  = [HandController.SendImage].
Proof. reflexivity. Qed.

(** * More on the capability loader *)

Section LoaderMore.
Import HandController.
Context (srcs : list string).

Lemma initScripts_from_keeps (rest : list string) (doc : Document) (u : string)
    (s : ScriptStatus) :
  doc !! u = Some s → (initScripts_from rest doc).2 !! u = Some s.
Proof.
  revert doc. induction rest as [|src rest IH]; intros doc Hu; [done|].
  simpl. unfold loadScript. destruct (doc !! src) eqn:Hsrc; [by apply IH|].
  simpl. rewrite lookup_insert_ne; [done|]. by intros ->; congruence.
Qed.

Lemma settle_all_keeps (src : string) (ok : bool) (ts : list Task) (doc : Document)
    (u : string) (s : ScriptStatus) :
  doc !! u = Some s → (settle_all src ok ts doc).2 !! u = Some s.
Proof.
  revert doc. induction ts as [|t ts IH]; intros doc Hu; [done|].
  simpl.
  assert ((settle src ok t doc).2 !! u = Some s) as Ht.
  { unfold settle. destruct t as [awaited rest| |]; try done.
    destruct (String.eqb awaited src); [|done].
    destruct ok; [by apply initScripts_from_keeps|done]. }
  destruct (settle src ok t doc) as [t' doc1]. specialize (IH doc1 Ht).
  by destruct (settle_all src ok ts doc1).
Qed.

Lemma loader_step_keeps (st : Loader) (ev : LoaderEvent) (u : string) (s : ScriptStatus) :
  document st !! u = Some s →
  document (loader_step srcs st ev) !! u = Some s
  ∨ (s = Loading ∧ is_Some (document (loader_step srcs st ev) !! u)).
Proof.
  intros Hu. destruct ev as [|src|src]; simpl.
  - left. pose proof (initScripts_from_keeps srcs (document st) u s Hu).
    by destruct (initScripts_from srcs (document st)).
  - destruct (document st !! src) as [[]|] eqn:Hsrc; try by left.
    destruct (decide (u = src)) as [->|Hne].
    + right. split; [congruence|].
      pose proof (settle_all_keeps src true (tasks st) (<[src:=Loaded]> (document st))
                    src Loaded (lookup_insert_eq _ _ _)).
      destruct (settle_all src true (tasks st) _). simpl in *. eauto.
    + left.
      pose proof (settle_all_keeps src true (tasks st) (<[src:=Loaded]> (document st))
                    u s) as Hkeep.
      rewrite lookup_insert_ne in Hkeep by done. specialize (Hkeep Hu).
      by destruct (settle_all src true (tasks st) _).
  - destruct (document st !! src) as [[]|] eqn:Hsrc; try by left.
    destruct (decide (u = src)) as [->|Hne].
    + right. split; [congruence|].
      pose proof (settle_all_keeps src false (tasks st) (<[src:=Failed]> (document st))
                    src Failed (lookup_insert_eq _ _ _)).
      destruct (settle_all src false (tasks st) _). simpl in *. eauto.
    + left.
      pose proof (settle_all_keeps src false (tasks st) (<[src:=Failed]> (document st))
                    u s) as Hkeep.
      rewrite lookup_insert_ne in Hkeep by done. specialize (Hkeep Hu).
      by destruct (settle_all src false (tasks st) _).
Qed.

(** X7. Whatever is invoked and whatever loads or fails, with any number
    of concurrent runs: a script that has loaded stays loaded, one that
    has failed stays failed (it is never requested again), and a
    registered script stays registered. *)
Theorem script_status_final (evs : list LoaderEvent) (st : Loader) (u : string) :
  (document st !! u = Some Loaded →
     document (loader_run srcs evs st) !! u = Some Loaded)
  ∧ (document st !! u = Some Failed →
       document (loader_run srcs evs st) !! u = Some Failed)
  ∧ (is_Some (document st !! u) → is_Some (document (loader_run srcs evs st) !! u)).
Proof.
  revert st. induction evs as [|ev evs IH]; intros st; [done|].
  cbn [loader_run foldl]. destruct (IH (loader_step srcs st ev)) as (Hl & Hf & Hr).
  split_and!.
  - intros Hu. apply Hl. by destruct (loader_step_keeps st ev u Loaded Hu) as [?|[? _]].
  - intros Hu. apply Hf. by destruct (loader_step_keeps st ev u Failed Hu) as [?|[? _]].
  - intros [s Hu]. apply Hr. destruct (loader_step_keeps st ev u s Hu) as [?|[_ ?]]; eauto.
Qed.

(** X8. When every URL is registered in the document (loaded, failed or
    still loading), an invocation gets through its awaits at once,
    appending nothing and waiting for nothing. *)
Theorem invocation_when_registered (st : Loader) :
  (∀ u, u ∈ srcs → is_Some (document st !! u)) →
  loader_step srcs st Invoke = {| document := document st; tasks := tasks st ++ [Resolved] |}.
Proof.
  intros Hall. simpl.
  assert (initScripts_from srcs (document st) = (Resolved, document st)) as ->; [|done].
  clear -Hall. induction srcs as [|src rest IH]; [done|].
  rewrite initScripts_skip by (apply Hall; by left).
  apply IH. intros u Hu. apply Hall. by right.
Qed.

Lemma caught_absorbing (st : Loader) (ev : LoaderEvent) (src : string) :
  tasks st = [Caught src] → is_invoke ev = false →
  tasks (loader_step srcs st ev) = [Caught src].
Proof.
  intros Hts Hev. destruct ev as [|u|u]; [done| |]; simpl;
    destruct (document st !! u) as [[]|]; try done; by rewrite Hts.
Qed.

Lemma caught_run (evs : list LoaderEvent) (st : Loader) (src : string) :
  tasks st = [Caught src] → forallb (λ ev, negb (is_invoke ev)) evs = true →
  tasks (loader_run srcs evs st) = [Caught src].
Proof.
  revert st. induction evs as [|ev evs IH]; intros st Hts Hevs; [done|].
  simpl in Hevs. apply andb_prop in Hevs as [Hev Hevs]. apply negb_true_iff in Hev.
  apply IH; [|done]. by apply caught_absorbing.
Qed.

End LoaderMore.

Section LoaderFailure.
Import HandController.

(** X9. A load failure ends a single run of the loader for good: it stays
    in its [catch] block whatever loads or fails afterwards (the
    scripts-loaded flag is never set), the failed URL stays failed, the
    URLs before it have loaded, and the URLs after it are never
    registered. *)
Theorem load_failure_stops_chain (doc : Document) (evs1 evs2 : list LoaderEvent)
    (src : string) :
  (∀ u, u ∈ urls → doc !! u = None) →
  forallb (λ ev, negb (is_invoke ev)) evs1 = true →
  forallb (λ ev, negb (is_invoke ev)) evs2 = true →
  tasks (loader_run urls (Invoke :: evs1) {| document := doc; tasks := [] |})
  = [Caught src] →
  tasks (loader_run urls (Invoke :: evs1 ++ evs2) {| document := doc; tasks := [] |})
  = [Caught src]
  ∧ ∃ before after,
      urls = before ++ src :: after
      ∧ (∀ u, u ∈ before →
           document (loader_run urls (Invoke :: evs1 ++ evs2)
                       {| document := doc; tasks := [] |}) !! u = Some Loaded)
      ∧ document (loader_run urls (Invoke :: evs1 ++ evs2)
                    {| document := doc; tasks := [] |}) !! src = Some Failed
      ∧ (∀ u, u ∈ after →
           document (loader_run urls (Invoke :: evs1 ++ evs2)
                       {| document := doc; tasks := [] |}) !! u = None).
Proof.
  intros Hfree Hevs1 Hevs2 Hcaught.
  assert (forallb (λ ev, negb (is_invoke ev)) (evs1 ++ evs2) = true) as Hevs
    by (rewrite forallb_app; by rewrite Hevs1, Hevs2).
  pose proof (loader_run_single urls (evs1 ++ evs2) _ urls_NoDup
                (invoke_single urls doc urls_NoDup Hfree) Hevs) as (t & Hts & Hseq).
  change (loader_run urls (evs1 ++ evs2)
            (loader_step urls {| document := doc; tasks := [] |} Invoke))
    with (loader_run urls (Invoke :: evs1 ++ evs2) {| document := doc; tasks := [] |}) in *.
  assert (tasks (loader_run urls (Invoke :: evs1 ++ evs2)
                   {| document := doc; tasks := [] |}) = [Caught src]) as Hfinal.
  { change (Invoke :: evs1 ++ evs2) with ((Invoke :: evs1) ++ evs2).
    unfold loader_run in *. rewrite foldl_app. by apply caught_run. }
  split; [done|].
  rewrite Hfinal in Hts. injection Hts as <-.
  inversion Hseq as [| |done failed rest Hsplit Hdone Hfailed Hrest]; subst.
  by exists done, rest.
Qed.

End LoaderFailure.

Lemma script_status_final_witness :
  HandController.document
    (HandController.loader_run HandController.urls
       [HandController.Invoke; HandController.Onload camera_utils] emptyLoader)
    !! camera_utils = Some HandController.Loaded
  ∧ HandController.document
      (HandController.loader_run HandController.urls
         [HandController.Invoke; HandController.Onerror hands_js; HandController.Invoke]
         (HandController.loader_run HandController.urls
            [HandController.Invoke; HandController.Onload camera_utils] emptyLoader))
      !! camera_utils = Some HandController.Loaded.
Proof.
  split; [reflexivity|].
  apply (proj1 (script_status_final HandController.urls
                  [HandController.Invoke; HandController.Onerror hands_js;
                   HandController.Invoke]
                  (HandController.loader_run HandController.urls
                     [HandController.Invoke; HandController.Onload camera_utils]
                     emptyLoader)
                  camera_utils)).
  reflexivity.
Defined.

(** The second script fails; a later invocation finds all three URLs
    registered and gets through at once. *)
Lemma invocation_when_registered_witness :
  HandController.tasks
    (HandController.loader_step HandController.urls
       (HandController.loader_run HandController.urls
          [HandController.Invoke; HandController.Invoke;
           HandController.Onload camera_utils; HandController.Onerror drawing_utils]
          emptyLoader)
       HandController.Invoke) !! 2 = Some HandController.Resolved.
Proof.
  rewrite (invocation_when_registered HandController.urls
             (HandController.loader_run HandController.urls
                [HandController.Invoke; HandController.Invoke;
                 HandController.Onload camera_utils; HandController.Onerror drawing_utils]
                emptyLoader)).
  - reflexivity.
  - intros u Hu.
    repeat (apply elem_of_cons in Hu as [->|Hu]; [by eexists|]).
    by apply elem_of_nil in Hu.
Defined.

Lemma load_failure_stops_chain_witness :
  HandController.tasks
    (HandController.loader_run HandController.urls
       (HandController.Invoke
          :: [HandController.Onload camera_utils; HandController.Onerror drawing_utils]
          ++ [HandController.Onload hands_js; HandController.Onerror camera_utils])
       {| HandController.document := ∅; HandController.tasks := [] |})
  = [HandController.Caught drawing_utils].
Proof.
  apply (load_failure_stops_chain ∅
           [HandController.Onload camera_utils; HandController.Onerror drawing_utils]
           [HandController.Onload hands_js; HandController.Onerror camera_utils]
           drawing_utils).
  - intros u _. apply lookup_empty.
  - reflexivity.
  - reflexivity.
  - reflexivity.
Defined.

(** * More on pause synchronisation *)

Section PauseInvariant.
Import App.

(** The pending timer, if any, was set by the render that gave the
    current state. *)
Definition timer_current (st : PauseState) : Prop :=
  ∀ t, timer st = Some t →
       timer_showModal t = showModal st ∧ timer_showRemix t = showRemix st.

Lemma pause_step_current (st : PauseState) (ev : PauseEvent) :
  timer_current st →
  timer_current (pause_step st ev).1
  ∧ Forall (λ p : Post, p.2 = PAUSE_GAME (showModal st || showRemix st))
      (pause_step st ev).2
  ∧ length (pause_step st ev).2 ≤ 1.
Proof.
  unfold timer_current. intros Hcur.
  destruct ev as [modal remix|ms| | |r]; cbn [pause_step].
  - destruct (Bool.eqb modal (showModal st) && Bool.eqb remix (showRemix st)).
    + split_and!; [exact Hcur|constructor|simpl; lia].
    + split_and!; [|constructor|simpl; lia]. by intros t [= <-].
  - split_and!; [|constructor|simpl; lia]. simpl.
    destruct (timer st) as [t0|] eqn:Ht0; [|done].
    intros t [= <-]. simpl. by apply Hcur.
  - destruct (timer st) as [t|] eqn:Ht;
      [|split_and!; [simpl; intros t' Ht'; apply Hcur; congruence|constructor|simpl; lia]].
    case_bool_decide;
      [|split_and!; [simpl; intros t' Ht'; apply Hcur; congruence|constructor|simpl; lia]].
    destruct (Hcur t eq_refl) as [-> ->].
    destruct (syncGameState_payload (showModal st) (showRemix st) (iframeRef st)).
    split_and!; [|done..]. simpl. by intros t'.
  - destruct (syncGameState_payload (showModal st) (showRemix st) (iframeRef st)).
    split_and!; [exact Hcur|done..].
  - split_and!; [exact Hcur|constructor|simpl; lia].
Qed.

Lemma pause_run_current (evs : list PauseEvent) (st : PauseState) :
  timer_current st → timer_current (pause_run evs st).1.
Proof.
  revert st. induction evs as [|ev evs IH]; intros st Hcur; [done|].
  cbn [pause_run]. destruct (pause_step_current st ev Hcur) as [Hcur1 _].
  destruct (pause_step st ev) as [st1 out1]. specialize (IH st1 Hcur1).
  by destruct (pause_run evs st1).
Qed.

(** X10. No stale pause value is ever posted. At any point of any
    sequence of state changes, waits, timer runs, iframe loads and
    remounts, an event posts at most one [PAUSE_GAME] message, and its
    payload is the pause flag of the state at that moment. *)
Theorem pause_never_stale (evs : list PauseEvent) (ev : PauseEvent) (st : PauseState) :
  timer_current st →
  Forall (λ p : Post,
            p.2 = PAUSE_GAME (showModal (pause_run evs st).1
                              || showRemix (pause_run evs st).1))
    (pause_step (pause_run evs st).1 ev).2
  ∧ length (pause_step (pause_run evs st).1 ev).2 ≤ 1.
Proof.
  intros Hcur.
  destruct (pause_step_current (pause_run evs st).1 ev (pause_run_current evs st Hcur))
    as (_ & Hall & Hone).
  done.
Qed.

End PauseInvariant.

(** The remix menu is opened, then closed after the timer has run, the
    iframe reloads: the timer of the last change posts [false]. *)
Lemma pause_never_stale_witness :
  timer_current runningState
  ∧ Forall (λ p : App.Post, p.2 = App.PAUSE_GAME false)
      (App.pause_step
         (App.pause_run
            [App.SetUI false true; App.Elapse 120; App.TimerFires; App.SetUI false false;
             App.IframeLoad; App.Elapse 100]
            runningState).1
         App.TimerFires).2.
Proof.
  assert (timer_current runningState) as Hcur by (by intros t).
  split; [exact Hcur|].
  exact (proj1 (pause_never_stale
                  [App.SetUI false true; App.Elapse 120; App.TimerFires;
                   App.SetUI false false; App.IframeLoad; App.Elapse 100]
                  App.TimerFires runningState Hcur)).
Defined.

(** * More on the prompt and on completion cycles *)

Section PromptShape.
Import App.

Lemma or_default (v d : Js.val) :
  Js.truthy (Js.or v d) = true ∨ Js.or v d = d.
Proof. unfold Js.or. destruct (Js.truthy v) eqn:Hv; auto. Qed.

Lemma timelineEvent_truthy (data r : Js.val) (i : nat) :
  timelineEvent data i = Js.Normal r → Js.truthy r = true.
Proof.
  unfold timelineEvent.
  destruct (Js.get data "timeline") as [timeline|]; [|done]. simpl.
  destruct (Js.index timeline i) as [entry|]; [|done]. simpl.
  destruct (Js.get_opt entry "event") as [event|]; [|done]. simpl.
  intros [= <-]. by destruct (or_default event (Js.Str "Unknown")) as [?| ->].
Qed.

Lemma artifactCount_default (data r : Js.val) (t : string) :
  artifactCount data t = Js.Normal r → Js.truthy r = true ∨ r = Js.Num 0.
Proof.
  unfold artifactCount.
  destruct (Js.get data "artifacts") as [artifacts|]; [|done]. simpl.
  destruct (Js.get_opt artifacts t) as [count|]; [|done]. simpl.
  intros [= <-]. apply or_default.
Qed.

Lemma metric_value (data metrics r : Js.val) (m : string) :
  Js.get data "metrics" = Js.Normal metrics → metric data m = Js.Normal r →
  Js.get metrics m = Js.Normal r.
Proof. unfold metric. by intros ->. Qed.

(** The prompt, read back from a successful call. *)
Lemma prompt_fields (data : Js.val) (prompt : Prompt) :
  generateAnalysisPrompt data = Js.Normal prompt →
  metric data "inst" = Js.Normal (inst prompt)
  ∧ metric data "net" = Js.Normal (net prompt)
  ∧ metric data "acad" = Js.Normal (acad prompt)
  ∧ metric data "hist" = Js.Normal (hist prompt)
  ∧ metric data "disc" = Js.Normal (disc prompt)
  ∧ timelineEvent data 0 = Js.Normal (origin prompt)
  ∧ timelineEvent data 1 = Js.Normal (pivot prompt)
  ∧ timelineEvent data 2 = Js.Normal (legacy prompt)
  ∧ artifactCount data "t1" = Js.Normal (t1 prompt)
  ∧ artifactCount data "t2" = Js.Normal (t2 prompt)
  ∧ artifactCount data "t3" = Js.Normal (t3 prompt).
Proof.
  unfold generateAnalysisPrompt.
  repeat match goal with
  | |- context [Js.interpolate ?v] =>
      change (Js.interpolate v)
        with (if Js.convertible v then Js.Normal v else Js.Throw Js.TypeError);
      destruct (Js.convertible v); [|done]; cbn [mbind Js.completion_bind]
  | |- context [?c ≫= Js.interpolate] =>
      destruct c; [|done]; cbn [mbind Js.completion_bind]
  end.
  by intros [= <-].
Qed.

Lemma forallb_false {A} (f : A → bool) (l : list A) :
  forallb f l = false ↔ ∃ x, x ∈ l ∧ f x = false.
Proof.
  induction l as [|y l IH]; simpl.
  - split; [done|]. by intros (x & Hx%elem_of_nil & _).
  - rewrite andb_false_iff, IH. split.
    + intros [Hy|(x & Hx & Hfx)]; [exists y|exists x]; split; auto using list_elem_of_here,
        list_elem_of_further.
    + intros (x & [->|Hx]%elem_of_cons & Hfx); eauto.
Qed.


(** X12. In a prompt that is built, the three timeline events are truthy
    (a missing, empty or otherwise falsy event reads ['Unknown']), each
    artifact count is truthy or the number 0 (a missing, [NaN] or
    otherwise falsy count reads 0), and the five metrics are the values
    read from the telemetry, with no default. *)
Theorem prompt_defaults (data metrics : Js.val) (prompt : Prompt) :
  generateAnalysisPrompt data = Js.Normal prompt →
  Js.get data "metrics" = Js.Normal metrics →
  (Js.truthy (origin prompt) = true ∧ Js.truthy (pivot prompt) = true
   ∧ Js.truthy (legacy prompt) = true)
  ∧ (Forall (λ count, Js.truthy count = true ∨ count = Js.Num 0)
       [t1 prompt; t2 prompt; t3 prompt])
  ∧ (Js.get metrics "inst" = Js.Normal (inst prompt)
     ∧ Js.get metrics "net" = Js.Normal (net prompt)
     ∧ Js.get metrics "acad" = Js.Normal (acad prompt)
     ∧ Js.get metrics "hist" = Js.Normal (hist prompt)
     ∧ Js.get metrics "disc" = Js.Normal (disc prompt)).
Proof.
  intros (Hi & Hn & Ha & Hh & Hd & Ho & Hp & Hl & H1 & H2 & H3)%prompt_fields Hm.
  split_and!;
    first [ by eauto using timelineEvent_truthy
          | by eauto using metric_value
          | repeat (apply Forall_cons_2; [by eauto using artifactCount_default|]);
            by apply Forall_nil_2 ].
Qed.

End PromptShape.

Example prompt_of_partial_telemetry :
  App.generateAnalysisPrompt partialTelemetry = Js.Normal partialPrompt.
Proof. reflexivity. Qed.

Lemma prompt_defaults_witness :
  App.generateAnalysisPrompt partialTelemetry = Js.Normal partialPrompt
  ∧ Js.truthy (App.origin partialPrompt) = true
  ∧ Forall (λ count, Js.truthy count = true ∨ count = Js.Num 0)
      [App.t1 partialPrompt; App.t2 partialPrompt; App.t3 partialPrompt].
Proof.
  split; [reflexivity|].
  pose proof (prompt_defaults partialTelemetry (Js.Obj [("inst", Js.Num 80)])
                partialPrompt eq_refl eq_refl) as ((Ho & _) & Hcounts & _).
  split; [exact Ho | exact Hcounts].
Defined.

Section CompletionCount.
Import App.
Context (service : Service).

Lemma reports_post (ref : option HTMLIFrameElement) (msg : Message) :
  length (reports (postIfPresent ref msg)) ≤ 1.
Proof.
  unfold postIfPresent. destruct (guestWindow ref); [|simpl; lia].
  destruct msg; simpl; lia.
Qed.

Lemma resume_reports (ref : option HTMLIFrameElement) (s : Settlement) :
  length (reports (progress_out (handleMessage_resume service ref s))) ≤ 1.
Proof.
  unfold handleMessage_resume, handleMessage_catch.
  destruct s as [text|e]; [destruct (text ≫= JSON_parse service)|]; apply reports_post.
Qed.

Lemma host_step_count (st : Host) (ev : HostEvent) :
  length (reports (host_step service st ev).2) + length (inflight (host_step service st ev).1)
  ≤ length (inflight st) + (if is_completion ev then 1 else 0).
Proof.
  destruct ev as [data|i s|r|x a]; cbn [host_step].
  - destruct (is_completion (Receive data)) eqn:Hgo.
    + destruct (completion_type data Hgo) as (type & Htype & _).
      destruct (get_total data "payload" (get_defined _ _ _ Htype)) as [gameData Hpayload].
      rewrite (handleMessage_completion service _ _ _ Hgo Hpayload).
      destruct (constructs service);
        [destruct (generateAnalysisPrompt gameData)|]; simpl;
        rewrite ?length_app; simpl;
        pose proof (reports_post (host_iframeRef st) (REPORT_GENERATED fallbackReport));
        unfold handleMessage_catch; lia.
    + destruct (handleMessage_other service (host_iframeRef st) data Hgo) as [->|[e ->]];
        simpl; lia.
  - destruct (inflight st !! i) eqn:Hi; simpl; [|lia].
    pose proof (resume_reports (host_iframeRef st) s).
    rewrite length_delete by eauto.
    apply lookup_lt_Some in Hi. lia.
  - simpl. lia.
  - simpl. unfold handleHandInput, postIfPresent.
    destruct (guestWindow (host_iframeRef st)); simpl; lia.
Qed.

(** X13. Over any sequence of messages, settlements, remounts and hand
    input, the reports posted plus the requests still in flight never
    exceed the requests in flight at the start plus the completion
    messages received: from an idle host, at most one report per
    completion message, however the cycles interleave. *)
Theorem reports_bounded_by_completions (evs : list HostEvent) (st : Host) :
  length (reports (host_run service evs st).2) + length (inflight (host_run service evs st).1)
  ≤ length (inflight st) + completions evs
  ∧ (inflight st = [] → length (reports (host_run service evs st).2) ≤ completions evs).
Proof.
  assert (length (reports (host_run service evs st).2)
          + length (inflight (host_run service evs st).1)
          ≤ length (inflight st) + completions evs) as Hbound.
  { revert st. induction evs as [|ev evs IH]; intros st; [simpl; lia|].
    cbn [host_run]. pose proof (host_step_count st ev) as Hstep.
    destruct (host_step service st ev) as [st1 out1]. specialize (IH st1).
    destruct (host_run service evs st1) as [st2 out2]. simpl in *.
    unfold reports in *. rewrite omap_app, length_app.
    unfold completions in *. simpl. destruct (is_completion ev); simpl; lia. }
  split; [done|]. intros Hidle. rewrite Hidle in Hbound. simpl in Hbound. lia.
Qed.

End CompletionCount.

(** Two completion messages while the first request is in flight: two
    requests, two reports. *)
Example overlapping_cycles :
  App.reports
    (App.host_run stubService
       [App.Receive (gameOver sampleTelemetry); App.Receive (gameOver sampleTelemetry);
        App.Settle 0 (App.Fulfilled (Some "{}")); App.Settle 0 (App.Rejected Js.SyntaxError)]
       {| App.host_iframeRef := Some sampleIframe; App.inflight := [] |}).2
  = [Js.Obj []; App.fallbackReport].
Proof. reflexivity. Qed.

(** * The strings the host shell rewrites *)

Section TextLemmas.
Import Text.

Lemma startsWith_spec (pat s : jsstring) :
  startsWith pat s = true ↔ ∃ t, s = pat ++ t.
Proof.
  revert s. induction pat as [|p pat IH]; intros s; simpl.
  - split; [eauto|done].
  - destruct s as [|c s]; [split; [done|by intros [t ?]]|].
    rewrite andb_true_iff, N.eqb_eq, IH. split.
    + intros [-> [t ->]]. eauto.
    + intros [t [= -> ->]]. eauto.
Qed.

Lemma startsWith_app (pat t : jsstring) : startsWith pat (pat ++ t) = true.
Proof. apply startsWith_spec. eauto. Qed.

Lemma startsWith_drop (pat t : jsstring) : drop (length pat) (pat ++ t) = t.
Proof. by rewrite drop_app_length. Qed.

Lemma startsWith_longer (pat more s : jsstring) :
  startsWith pat s = false → startsWith (pat ++ more) s = false.
Proof.
  intros Hno. apply not_true_is_false. intros [t ->]%startsWith_spec.
  rewrite <-app_assoc, startsWith_app in Hno. done.
Qed.

Lemma includes_spec (s pat : jsstring) :
  includes s pat = true ↔ ∃ a b, s = a ++ pat ++ b.
Proof.
  split.
  - induction s as [|c s IH]; simpl; rewrite orb_true_iff.
    + intros [[t Ht]%startsWith_spec|?]; [|done]. by exists [], t.
    + intros [[t Ht]%startsWith_spec|(a & b & ->)%IH]; [by exists [], t|].
      by exists (c :: a), b.
  - intros (a & b & ->). induction a as [|c a IH].
    + destruct (pat ++ b) eqn:Heq; simpl; rewrite <-Heq, startsWith_app; done.
    + simpl. by rewrite IH, orb_true_r.
Qed.

(** [replace] rewrites the first occurrence and nothing else. *)
Lemma replace_first (s pat rep : jsstring) :
  includes s pat = true →
  ∃ a b, s = a ++ pat ++ b
         ∧ replace s pat rep = a ++ rep ++ b
         ∧ ∀ a' b', s = a' ++ pat ++ b' → length a ≤ length a'.
Proof.
  induction s as [|c s IH]; simpl; intros Hin.
  - rewrite orb_false_r in Hin. rewrite Hin.
    apply startsWith_spec in Hin as [t Ht]. symmetry in Ht.
    apply app_eq_nil in Ht as [-> ->]. exists [], [].
    split_and!; [done..|intros; simpl; lia].
  - destruct (startsWith pat (c :: s)) eqn:Hstart.
    + apply startsWith_spec in Hstart as [t Ht]. exists [], t.
      split_and!; [done| |intros; simpl; lia].
      by rewrite Ht, startsWith_drop.
    + simpl in Hin. destruct (IH Hin) as (a & b & -> & -> & Hmin).
      exists (c :: a), b. split_and!; [done..|].
      intros [|c' a'] b' Heq.
      * simpl in Heq. rewrite Heq, startsWith_app in Hstart. done.
      * injection Heq as -> Heq. simpl. specialize (Hmin a' b' Heq). lia.
Qed.

Lemma replace_absent (s pat rep : jsstring) :
  includes s pat = false → replace s pat rep = s.
Proof.
  induction s as [|c s IH]; simpl; intros [Hstart Hrest]%orb_false_iff; rewrite Hstart.
  - done.
  - by rewrite IH.
Qed.

Lemma endsWith_spec (pat s : jsstring) :
  endsWith pat s = true ↔ ∃ a, s = a ++ pat.
Proof.
  unfold endsWith. rewrite startsWith_spec. split.
  - intros [t Ht]. exists (reverse t).
    apply (inj reverse). by rewrite reverse_app, reverse_involutive.
  - intros [a ->]. exists (reverse a). by rewrite reverse_app.
Qed.

Lemma stripEnd_app (pat a : jsstring) : stripEnd pat (a ++ pat) = a.
Proof.
  unfold stripEnd. rewrite (proj2 (endsWith_spec pat (a ++ pat))) by eauto.
  rewrite length_app, Nat.add_sub. by rewrite take_app_length.
Qed.

Lemma skipSpaces_app (ws rest : jsstring) :
  Forall (λ c, isSpace c = true) ws →
  match rest with c :: _ => isSpace c = false | [] => True end →
  skipSpaces (ws ++ rest) = rest.
Proof.
  intros Hws Hrest. induction Hws as [|w ws Hw _ IH]; simpl.
  - destruct rest as [|c rest]; [done|]. simpl. by rewrite Hrest.
  - by rewrite Hw.
Qed.

Lemma skipSpaces_suffix (s : jsstring) : ∃ a, s = a ++ skipSpaces s.
Proof.
  induction s as [|c s [a IH]]; [by exists []|]. simpl.
  destruct (isSpace c); [|by exists []].
  exists (c :: a). simpl. by rewrite <-IH.
Qed.

Lemma stripStart_suffix (pat s : jsstring) : ∃ a, s = a ++ stripStart pat s.
Proof.
  unfold stripStart. destruct (startsWith pat s) eqn:Hstart; [|by exists []].
  apply startsWith_spec in Hstart as [t ->]. rewrite startsWith_drop.
  destruct (skipSpaces_suffix t) as [a Ha]. exists (pat ++ a).
  by rewrite <-app_assoc, <-Ha.
Qed.

Lemma stripEnd_prefix (pat s : jsstring) : ∃ b, s = stripEnd pat s ++ b.
Proof.
  unfold stripEnd. destruct (endsWith pat s); [|exists []; by rewrite app_nil_r].
  exists (drop (length s - length pat) s). by rewrite take_drop.
Qed.

Lemma baseTag_text :
  baseTag = units "<base" ++ units " href=" ++ [quote] ++ units "./init/" ++ [quote]
            ++ units ">".
Proof. reflexivity. Qed.

(** X14. [injectBase] leaves a document that has the text [<base], or
    that has no [<head>], as it is; otherwise it puts the [base] element
    right after the first [<head>] and changes nothing else. Afterwards
    the document has [<base] exactly if it had [<base] or [<head>] before,
    and injecting again changes nothing. *)
Theorem injectBase_spec (html : jsstring) :
  (includes html (units "<base") = true → injectBase html = html)
  ∧ (includes html head = false → injectBase html = html)
  ∧ (includes html (units "<base") = false → includes html head = true →
       ∃ a b, html = a ++ head ++ b
              ∧ injectBase html = a ++ head ++ baseTag ++ b
              ∧ ∀ a' b', html = a' ++ head ++ b' → length a ≤ length a')
  ∧ includes (injectBase html) (units "<base")
    = includes html (units "<base") || includes html head
  ∧ injectBase (injectBase html) = injectBase html.
Proof.
  assert (includes html (units "<base") = true → injectBase html = html) as Hbase.
  { intros Hb. unfold injectBase. by rewrite Hb. }
  assert (includes html head = false → injectBase html = html) as Hnohead.
  { intros Hh. unfold injectBase. destruct (includes html (units "<base")); [done|].
    by apply replace_absent. }
  assert (includes html (units "<base") = false → includes html head = true →
          ∃ a b, html = a ++ head ++ b
                 ∧ injectBase html = a ++ head ++ baseTag ++ b
                 ∧ ∀ a' b', html = a' ++ head ++ b' → length a ≤ length a') as Hinject.
  { intros Hb Hh. unfold injectBase. rewrite Hb. cbn [negb].
    destruct (replace_first html head (head ++ baseTag) Hh) as (a & b & Hsplit & Hrep & Hmin).
    exists a, b. split_and!; [done| |done]. by rewrite Hrep, <-app_assoc. }
  assert (includes (injectBase html) (units "<base")
          = includes html (units "<base") || includes html head) as Hafter.
  { destruct (includes html (units "<base")) eqn:Hb; [by rewrite Hbase|].
    destruct (includes html head) eqn:Hh; [|by rewrite Hnohead].
    destruct (Hinject eq_refl eq_refl) as (a & b & _ & -> & _).
    apply includes_spec. rewrite baseTag_text.
    exists (a ++ head),
      (units " href=" ++ [quote] ++ units "./init/" ++ [quote] ++ units ">" ++ b).
    by rewrite <-!app_assoc. }
  split_and!; [done..|].
  destruct (includes (injectBase html) (units "<base")) eqn:Hagain.
  - unfold injectBase at 1. by rewrite Hagain.
  - symmetry in Hafter. apply orb_false_iff in Hafter as [_ Hh].
    by rewrite !(Hnohead Hh).
Qed.

(** X15. [cleanCode] recovers the body of a fenced answer: with an
    opening fence tagged [html] followed by any white space, or an
    untagged one followed by some white space, and a closing fence at the
    very end, the result is the body, provided the body is empty or begins
    with a code unit that is neither white space nor a backtick. *)
Theorem cleanCode_fenced (ws body : jsstring) :
  Forall (λ c, isSpace c = true) ws →
  plainStart body →
  cleanCode (fence ++ units "html" ++ ws ++ body ++ fence) = body
  ∧ (ws ≠ [] → cleanCode (fence ++ ws ++ body ++ fence) = body).
Proof.
  intros Hws Hbody.
  assert (skipSpaces (ws ++ body ++ fence) = body ++ fence) as Hskip.
  { apply skipSpaces_app; [done|]. destruct body as [|c rest]; [done|]. apply Hbody. }
  assert (stripEnd fence (stripStart fence (body ++ fence)) = body) as Hrest.
  { destruct body as [|c rest]; [done|]. destruct Hbody as [_ Hc].
    unfold stripStart.
    assert (startsWith fence ((c :: rest) ++ fence) = false) as ->.
    { apply not_true_is_false. intros [t Ht]%startsWith_spec.
      change fence with [96; 96; 96]%N in Ht. by injection Ht as -> _. }
    apply stripEnd_app. }
  split.
  - unfold cleanCode. unfold stripStart at 2.
    rewrite (app_assoc fence), startsWith_app, startsWith_drop, Hskip. done.
  - intros Hnonempty. unfold cleanCode. unfold stripStart at 2.
    assert (startsWith (fence ++ units "html") (fence ++ ws ++ body ++ fence) = false)
      as ->.
    { destruct ws as [|w ws']; [done|]. apply Forall_cons in Hws as [Hw _].
      apply not_true_is_false. intros [t Ht]%startsWith_spec.
      rewrite <-app_assoc in Ht. apply app_inv_head in Ht.
      change (units "html") with [104; 116; 109; 108]%N in Ht.
      injection Ht as -> _. done. }
    unfold stripStart. rewrite startsWith_app, startsWith_drop, Hskip.
    apply stripEnd_app.
Qed.

(** X16. [cleanCode] only ever removes from the two ends: its result is
    a contiguous piece of the answer, and an answer that neither begins
    nor ends with a fence is returned unchanged. *)
Theorem cleanCode_piece (newCode : jsstring) :
  (∃ a b, newCode = a ++ cleanCode newCode ++ b)
  ∧ (startsWith fence newCode = false → endsWith fence newCode = false →
       cleanCode newCode = newCode).
Proof.
  split.
  - unfold cleanCode.
    destruct (stripStart_suffix (fence ++ units "html") newCode) as [a1 H1].
    destruct (stripStart_suffix fence (stripStart (fence ++ units "html") newCode))
      as [a2 H2].
    destruct (stripEnd_prefix fence
                (stripStart fence (stripStart (fence ++ units "html") newCode)))
      as [b H3].
    exists (a1 ++ a2), b. rewrite <-app_assoc, <-H3, <-H2. done.
  - intros Hstart Hend. unfold cleanCode, stripStart, stripEnd.
    by rewrite (startsWith_longer _ _ _ Hstart), Hstart, Hend.
Qed.

End TextLemmas.

Lemma cleanCode_fenced_witness :
  Forall (λ c, Text.isSpace c = true) [10%N]
  ∧ plainStart (Text.units "<html><head></head></html>")
  ∧ Text.cleanCode (Text.fence ++ Text.units "html" ++ [10%N]
                    ++ Text.units "<html><head></head></html>" ++ Text.fence)
    = Text.units "<html><head></head></html>".
Proof.
  assert (Forall (λ c, Text.isSpace c = true) [10%N]) as Hws
    by (by apply Forall_cons_2; [|apply Forall_nil_2]).
  assert (plainStart (Text.units "<html><head></head></html>")) as Hbody by done.
  split; [exact Hws|]. split; [exact Hbody|].
  exact (proj1 (cleanCode_fenced [10%N] (Text.units "<html><head></head></html>")
                  Hws Hbody)).
Defined.

(** A document with an upper-case [<HEAD>] gets no [base] element. *)
Example injectBase_case_sensitive :
  Text.injectBase (Text.units "<html><HEAD></HEAD></html>")
  = Text.units "<html><HEAD></HEAD></html>".
Proof. reflexivity. Qed.

(** * Loading and remixing the game *)

Section Loading.
Import Text AppShell.

Lemma injectBase_nonempty (text : jsstring) : injectBase text = [] ↔ text = [].
Proof.
  split; [|by intros ->].
  destruct (includes text (units "<base")) eqn:Hbase.
  { unfold injectBase. by rewrite Hbase. }
  destruct (includes text head) eqn:Hhead.
  - unfold injectBase. rewrite Hbase. cbn [negb].
    destruct (replace_first text head (head ++ baseTag) Hhead) as (a & b & _ & -> & _).
    intros Hnil. apply app_eq_nil in Hnil as [_ Hnil]. by destruct b.
  - unfold injectBase. rewrite Hbase. cbn [negb]. by rewrite replace_absent.
Qed.


End Loading.

(** * Instances *)

Lemma onResults_signal_wellformed_witness :
  (0.5%float, true)
  ∈ HandController.inputs
      (HandController.onResults true (Some sampleCanvas) sampleWindow (frameOf [fullHand]))
  ∧ ∃ landmarks others lm9,
      HandController.multiHandLandmarks (frameOf [fullHand])
      = Some (Some landmarks :: others)
      ∧ landmarks !! 9 = Some (Some lm9)
      ∧ 0.5%float = ((1 - HandController.Landmark.x lm9 - 0.5) * 2)%float.
Proof.
  assert ((0.5%float, true)
          ∈ HandController.inputs
              (HandController.onResults true (Some sampleCanvas) sampleWindow
                 (frameOf [fullHand]))) as Hin by (by apply list_elem_of_singleton).
  split; [exact Hin|].
  exact (proj2 (proj2 (onResults_signal_wellformed true (Some sampleCanvas) sampleWindow
                         (frameOf [fullHand]))) _ Hin).
Defined.

Lemma hands_created_once_witness :
  HandController.handsRef trackingState
  = Some {| HandController.closure_isActive := false |}
  ∧ HandController.handsRef
      (HandController.run sampleWindow
         [HandController.Render false sampleCanvas; HandController.SetScriptsLoaded;
          HandController.Render true sampleCanvas]
         trackingState).1
    = Some {| HandController.closure_isActive := false |}.
Proof.
  split; [reflexivity|].
  apply (proj2 (proj2 (hands_created_once sampleWindow
                         [HandController.Render false sampleCanvas;
                          HandController.SetScriptsLoaded;
                          HandController.Render true sampleCanvas]
                         trackingState))).
  reflexivity.
Defined.


Lemma reports_bounded_by_completions_witness :
  length
    (App.reports
       (App.host_run stubService
          [App.Receive (gameOver sampleTelemetry); App.Receive (gameOver sampleTelemetry);
           App.Settle 0 (App.Fulfilled (Some "{}")); App.HandInput 0.5 true;
           App.Settle 0 (App.Rejected Js.SyntaxError)]
          {| App.host_iframeRef := Some sampleIframe; App.inflight := [] |}).2)
  ≤ completions
      [App.Receive (gameOver sampleTelemetry); App.Receive (gameOver sampleTelemetry);
       App.Settle 0 (App.Fulfilled (Some "{}")); App.HandInput 0.5 true;
       App.Settle 0 (App.Rejected Js.SyntaxError)].
Proof.
  apply (proj2 (reports_bounded_by_completions stubService
                  [App.Receive (gameOver sampleTelemetry);
                   App.Receive (gameOver sampleTelemetry);
                   App.Settle 0 (App.Fulfilled (Some "{}")); App.HandInput 0.5 true;
                   App.Settle 0 (App.Rejected Js.SyntaxError)]
                  {| App.host_iframeRef := Some sampleIframe; App.inflight := [] |})).
  reflexivity.
Defined.

Lemma injectBase_spec_witness :
  Text.includes (Text.units "<html><head><title>t</title></head></html>")
    (Text.units "<base") = false
  ∧ Text.includes (Text.units "<html><head><title>t</title></head></html>") Text.head
    = true
  ∧ ∃ a b,
      Text.units "<html><head><title>t</title></head></html>" = a ++ Text.head ++ b
      ∧ Text.injectBase (Text.units "<html><head><title>t</title></head></html>")
        = a ++ Text.head ++ Text.baseTag ++ b
      ∧ ∀ a' b',
          Text.units "<html><head><title>t</title></head></html>" = a' ++ Text.head ++ b' →
          length a ≤ length a'.
Proof.
  split; [reflexivity|]. split; [reflexivity|].
  apply (proj1 (proj2 (proj2 (injectBase_spec
                                (Text.units "<html><head><title>t</title></head></html>")))));
    reflexivity.
Defined.

Lemma cleanCode_piece_witness :
  Text.startsWith Text.fence (Text.units "<html></html>") = false
  ∧ Text.endsWith Text.fence (Text.units "<html></html>") = false
  ∧ Text.cleanCode (Text.units "<html></html>") = Text.units "<html></html>".
Proof.
  split; [reflexivity|]. split; [reflexivity|].
  apply (proj2 (cleanCode_piece (Text.units "<html></html>"))); reflexivity.
Defined.

